(** * Grid SDK CLI: a shallow embedding of [src/index.ts]

    The program is an interactive command-line client: it reads its
    configuration from the process environment, logs a user in through the
    Grid SDK, and then serves a menu of flows (balance, USDC transfer, SOL
    transfer).  The embedding has three layers:

    - the JavaScript data the program computes with: binary64 numbers,
      strings, and the dynamically typed values exchanged with the SDK;
    - the pure helpers of the source ([validateAmount], the signature
      extraction, the balance expression, the configuration loader);
    - the flows, written in a small program monad whose nodes are the
      effects of the source (console output, inquirer prompts, awaited SDK
      and RPC calls, reads and writes of the two session variables,
      [throw]/[try]/[catch], [process.exit]) and run against a scripted
      environment. *)

From Stdlib Require Import ZArith Lia List Bool Ascii String.
From Stdlib Require Import Floats.SpecFloat.
From stdpp Require Import base strings gmap pretty.

Local Open Scope Z_scope.

(** ** Numbers

    A JavaScript Number is an IEEE-754 binary64 value.  The standard
    library's [spec_float] with [prec = 53] and [emax = 1024] gives the
    arithmetic bit for bit. *)

Module Num.

Definition float : Type := spec_float.

Definition prec : Z := 53.
Definition emax : Z := 1024.

Definition NaN : float := S754_nan.
Definition pzero : float := S754_zero false.

(** The Number written as the integer literal [n]. *)
Definition lit (n : Z) : float := binary_normalize prec emax n 0 false.

Definition mul : float -> float -> float := SFmul prec emax.
Definition div : float -> float -> float := SFdiv prec emax.

(** [x < y], [x <= y] and [x > y]; all false when an operand is NaN. *)
Definition lt (x y : float) : bool := SFltb x y.
Definition le (x y : float) : bool := SFleb x y.
Definition gt (x y : float) : bool := SFltb y x.

Definition isNaN (x : float) : bool :=
  match x with S754_nan => true | _ => false end.

Definition is_finite (x : float) : bool :=
  match x with S754_zero _ | S754_finite _ _ _ => true | _ => false end.

(** ToBoolean on a Number: false for +0, -0 and NaN. *)
Definition truthy (x : float) : bool :=
  match x with S754_zero _ | S754_nan => false | _ => true end.

(** The binary64 value nearest to the ratio [p / q] (ties to even). *)
Definition of_ratio (neg : bool) (p q : positive) : float :=
  let '(m, e, l) := SFdiv_core_binary prec emax (Zpos p) 0 (Zpos q) 0 in
  binary_round_aux prec emax neg m e l.

(** The binary64 value nearest to [m * 10^e]: the Number value of a decimal
    literal with digits [m] and decimal exponent [e]. *)
Definition of_decimal (neg : bool) (m : N) (e : Z) : float :=
  match m with
  | N0 => S754_zero neg
  | Npos p =>
      if 0 <=? e then binary_round prec emax neg (p * Z.to_pos (10 ^ e)) 0
      else of_ratio neg p (Z.to_pos (10 ^ (- e)))
  end.

(** The signed mantissa of a finite number. *)
Definition signed (s : bool) (m : positive) : Z := cond_Zopp s (Zpos m).

(** The greatest integer below a finite number, as a mathematical
    integer ([Z.div] rounds towards minus infinity). *)
Definition floorZ (x : float) : option Z :=
  match x with
  | S754_zero _ => Some 0
  | S754_finite s m e =>
      Some (if 0 <=? e then signed s m * 2 ^ e else signed s m / 2 ^ (- e))
  | _ => None
  end.

(** [Math.floor]: NaN, the infinities, the zeros and the numbers with a
    non-negative exponent are their own floor; a number with a fractional
    part is replaced by the integer below it, which has fewer than 53 bits
    and is therefore represented exactly. *)
Definition Math_floor (x : float) : float :=
  match x with
  | S754_finite s m e =>
      if 0 <=? e then x
      else binary_normalize prec emax (signed s m / 2 ^ (- e)) 0 s
  | _ => x
  end.

(** The integer a Number denotes, when it is a finite integer. *)
Definition to_Z (x : float) : option Z :=
  match x with
  | S754_zero _ => Some 0
  | S754_finite s m e =>
      if 0 <=? e then Some (signed s m * 2 ^ e)
      else if Zpos m mod 2 ^ (- e) =? 0 then Some (signed s m / 2 ^ (- e))
      else None
  | _ => None
  end.

End Num.

Abbreviation float := Num.float.

#[global] Arguments Num.lit : simpl never.
#[global] Arguments Num.mul : simpl never.
#[global] Arguments Num.div : simpl never.
#[global] Arguments Num.of_decimal : simpl never.
#[global] Arguments Num.Math_floor : simpl never.

(** ** Strings

    A string is a sequence of code units below 256; the non-ASCII characters
    of the source's message literals appear as their UTF-8 bytes. *)

Module Str.

Definition code (c : ascii) : N := N_of_ascii c.

(** The white space and line terminators that [trim] and [parseFloat]
    strip: TAB, LF, VT, FF, CR, SP and NBSP. *)
Definition is_space (c : ascii) : bool :=
  let n := code c in
  ((9 <=? n) && (n <=? 13) || (n =? 32) || (n =? 160))%N.

Fixpoint trimStart (s : string) : string :=
  match s with
  | String c r => if is_space c then trimStart r else s
  | EmptyString => EmptyString
  end.

Definition is_empty (s : string) : bool :=
  match s with EmptyString => true | _ => false end.

Fixpoint trimEnd (s : string) : string :=
  match s with
  | String c r =>
      let r' := trimEnd r in
      if is_space c && is_empty r' then EmptyString else String c r'
  | EmptyString => EmptyString
  end.

Definition trim (s : string) : string := trimEnd (trimStart s).

Fixpoint drop (n : nat) (s : string) : string :=
  match n, s with
  | S n', String _ r => drop n' r
  | _, _ => s
  end.

(** [s.includes(t)] *)
Fixpoint includes (t s : string) : bool :=
  String.prefix t s ||
  match s with
  | String _ r => includes t r
  | EmptyString => false
  end.

Definition upper (c : ascii) : ascii :=
  let n := code c in
  if ((97 <=? n) && (n <=? 122))%N then ascii_of_N (n - 32) else c.

(** [s.toUpperCase()] on the ASCII letters. *)
Fixpoint toUpperCase (s : string) : string :=
  match s with
  | String c r => String (upper c) (toUpperCase r)
  | EmptyString => EmptyString
  end.

(** [s.substring(i)] and [s.substring(0, n)] with the indices already
    clamped to the string. *)
Definition substring_from (i : nat) (s : string) : string := drop i s.
Definition substring_to (n : nat) (s : string) : string := String.substring 0 n s.

(** The line feed and the double quote. *)
Definition lf : string := String (ascii_of_N 10) EmptyString.
Definition dq : string := String (ascii_of_N 34) EmptyString.

Fixpoint concat (l : list string) : string :=
  match l with
  | [] => EmptyString
  | s :: r => s +:+ concat r
  end.

Fixpoint join (sep : string) (l : list string) : string :=
  match l with
  | [] => EmptyString
  | [s] => s
  | s :: r => s +:+ sep +:+ join sep r
  end.

End Str.

(** ** Numeric literals in strings *)

Module Lex.

Definition digit (c : ascii) : option N :=
  let n := Str.code c in
  if ((48 <=? n) && (n <=? 57))%N then Some (n - 48)%N else None.

(** Reads a run of decimal digits, continuing the number [acc]; returns the
    number read, how many digits it took, and the rest of the string. *)
Fixpoint digits (s : string) (acc : N) (cnt : nat) : N * nat * string :=
  match s with
  | String c r =>
      match digit c with
      | Some d => digits r (10 * acc + d)%N (S cnt)
      | None => (acc, cnt, s)
      end
  | EmptyString => (acc, cnt, s)
  end.

Definition is_char (c : ascii) (s : string) : bool :=
  match s with
  | String d _ => Ascii.eqb d c
  | EmptyString => false
  end.

Definition sign (s : string) : bool * string :=
  if is_char "+" s then (false, Str.drop 1 s)
  else if is_char "-" s then (true, Str.drop 1 s)
  else (false, s).

(** ExponentPart: [e] or [E], an optional sign and at least one digit;
    when no digit follows, the exponent indicator is not part of the
    literal. *)
Definition exponent (s : string) : Z * string :=
  if is_char "e" s || is_char "E" s then
    let '(neg, r1) := sign (Str.drop 1 s) in
    let '(v, n, r2) := digits r1 0%N 0%nat in
    match n with
    | O => (0, s)
    | S _ => (if neg then - Z.of_N v else Z.of_N v, r2)
    end
  else (0, s).

Inductive literal : Type :=
| Infinity (neg : bool)
| Decimal (neg : bool) (m : N) (e : Z).

(** The longest prefix of [s] that is a StrDecimalLiteral, with the rest
    of the string; [None] when no prefix is one. *)
Definition scan (s : string) : option (literal * string) :=
  let '(neg, s1) := sign s in
  if String.prefix "Infinity" s1 then Some (Infinity neg, Str.drop 8 s1)
  else
    let '(ip, ni, s2) := digits s1 0%N 0%nat in
    if is_char "." s2 then
      let '(m, nf, s4) := digits (Str.drop 1 s2) ip 0%nat in
      match ni, nf with
      | O, O => None
      | _, _ =>
          let '(ex, s5) := exponent s4 in
          Some (Decimal neg m (ex - Z.of_nat nf), s5)
      end
    else
      match ni with
      | O => None
      | S _ =>
          let '(ex, s5) := exponent s2 in
          Some (Decimal neg ip ex, s5)
      end.

Definition value (l : literal) : float :=
  match l with
  | Infinity neg => S754_infinity neg
  | Decimal neg m e => Num.of_decimal neg m e
  end.

End Lex.

(** [parseFloat(s)]: skip leading white space, take the longest decimal
    literal, NaN when there is none. *)
Definition parseFloat (s : string) : float :=
  match Lex.scan (Str.trimStart s) with
  | Some (l, _) => Lex.value l
  | None => Num.NaN
  end.

(** ** Values

    The SDK hands the program plain data ([any] in the source): the
    primitive values, arrays and objects.  An object keeps its fields in
    order, as [Object.keys] shows them. *)

#[warnings="-register-all"]
Inductive value : Type :=
| VUndefined
| VNull
| VBool (b : bool)
| VNumber (x : float)
| VText (s : string)
| VArray (items : list value)
| VObject (fields : list (string * value)).

(** How a JavaScript expression completes: with a value, or by throwing. *)
Inductive completion (A : Type) : Type :=
| Normal (a : A)
| Throws (e : value).
Arguments Normal {A} a.
Arguments Throws {A} e.

(** What the platform underneath the program provides and the source takes
    from its libraries: the parts of ECMAScript that the standard leaves to
    the implementation or that are too large to spell out here, and the
    operations of [@solana/web3.js]. *)
Record PublicKey : Type := { key_source : value }.

Record TransferInstruction : Type := {
  fromPubkey : PublicKey;
  toPubkey : PublicKey;
  lamports : float;
}.

Record Transaction : Type := {
  recentBlockhash : value;
  feePayer : PublicKey;
  instructions : list TransferInstruction;
}.

Record platform : Type := {
  (** [Math.pow], implementation-approximated *)
  Math_pow : float -> float -> float;
  (** [Number.prototype.toString] in radix 10 *)
  Number_toString : float -> string;
  (** what [new PublicKey(v)] throws, when it throws *)
  PublicKey_rejects : value -> option value;
  (** [key.toBase58()] *)
  toBase58 : PublicKey -> string;
  (** what [SystemProgram.transfer] throws for this lamport amount *)
  transfer_rejects : float -> option value;
  (** [transaction.serialize({...}).toString('base64')] *)
  serialize_base64 : Transaction -> completion string;
  (** [clusterApiUrl(cluster)] *)
  clusterApiUrl : string -> string;
}.

Module Js.

(** ToBoolean *)
Definition truthy (v : value) : bool :=
  match v with
  | VUndefined | VNull => false
  | VBool b => b
  | VNumber x => Num.truthy x
  | VText s => negb (Str.is_empty s)
  | VArray _ | VObject _ => true
  end.

(** [a || b] and [a && b] *)
Definition or (a b : value) : value := if truthy a then a else b.
Definition and (a b : value) : value := if truthy a then b else a.

Definition nullish (v : value) : bool :=
  match v with VUndefined | VNull => true | _ => false end.

Fixpoint field (k : string) (fs : list (string * value)) : value :=
  match fs with
  | [] => VUndefined
  | (k', v) :: r => if String.eqb k k' then v else field k r
  end.

Definition of_nat (n : nat) : value := VNumber (Num.lit (Z.of_nat n)).

(** Reading property [k] of a value that is neither [null] nor
    [undefined]. *)
Definition member (v : value) (k : string) : value :=
  match v with
  | VObject fs => field k fs
  | VArray l => if String.eqb k "length" then of_nat (length l) else VUndefined
  | VText s => if String.eqb k "length" then of_nat (String.length s) else VUndefined
  | _ => VUndefined
  end.

(** The TypeError objects the engine throws; the message texts are V8's. *)
Definition TypeError (message : string) : value :=
  VObject [("name", VText "TypeError"); ("message", VText message)].

Definition cannot_read (v : value) (k : string) : value :=
  TypeError ("Cannot read properties of " +:+
             (match v with VNull => "null" | _ => "undefined" end) +:+
             " (reading '" +:+ k +:+ "')").

Definition not_a_function (what : string) : value :=
  TypeError (what +:+ " is not a function").

(** [new Error(message)] *)
Definition Error (message : string) : value :=
  VObject [("message", VText message)].

(** [v.k]: throws on [null] and [undefined]. *)
Definition get (v : value) (k : string) : completion value :=
  if nullish v then Throws (cannot_read v k) else Normal (member v k).

(** [const { k } = v] *)
Definition destructure (v : value) (k : string) : completion value :=
  if nullish v then
    Throws (TypeError ("Cannot destructure property '" +:+ k +:+
                       "' of '(intermediate value)' as it is " +:+
                       (match v with VNull => "null" | _ => "undefined" end) +:+ "."))
  else Normal (member v k).

(** [v?.k] *)
Definition opt (v : value) (k : string) : value :=
  if nullish v then VUndefined else member v k.

(** [v === 'text'] *)
Definition is_text (t : string) (v : value) : bool :=
  match v with VText s => String.eqb s t | _ => false end.

(** [Object.keys(v)] of a value that is neither [null] nor [undefined]:
    the field names of an object, the indices of an array or a string. *)
Definition indices (n : nat) : list value :=
  map (fun i => VText (pretty i)) (seq 0 n).

Definition Object_keys (v : value) : value :=
  match v with
  | VObject fs => VArray (map (fun kv => VText (fst kv)) fs)
  | VArray l => VArray (indices (length l))
  | VText s => VArray (indices (String.length s))
  | _ => VArray []
  end.

(** [m.includes(needle)] for a truthy [m]: substring search on a string,
    element search on an array, a TypeError on anything else. *)
Definition includes (what : string) (m : value) (needle : string) : completion bool :=
  match m with
  | VText s => Normal (Str.includes needle s)
  | VArray l => Normal (existsb (is_text needle) l)
  | _ => Throws (not_a_function what)
  end.

(** Digits in radix [b], for the [0x], [0o] and [0b] literals that
    [Number(string)] accepts. *)
Definition radix_digit (b : N) (c : ascii) : option N :=
  let n := Str.code c in
  let d := if ((48 <=? n) && (n <=? 57))%N then Some (n - 48)%N
           else if ((97 <=? n) && (n <=? 102))%N then Some (n - 87)%N
           else if ((65 <=? n) && (n <=? 70))%N then Some (n - 55)%N
           else None in
  match d with
  | Some k => if (k <? b)%N then Some k else None
  | None => None
  end.

Fixpoint radix_digits (b : N) (s : string) (acc : N) : option N :=
  match s with
  | EmptyString => Some acc
  | String c r =>
      match radix_digit b c with
      | Some d => radix_digits b r (b * acc + d)%N
      | None => None
      end
  end.

Definition radix_literal (b : N) (s : string) : float :=
  match s with
  | EmptyString => Num.NaN
  | _ => match radix_digits b s 0%N with
         | Some n => Num.lit (Z.of_N n)
         | None => Num.NaN
         end
  end.

(** StringToNumber: the whole trimmed string must be a numeric literal;
    the empty string is +0. *)
Definition StringToNumber (s : string) : float :=
  match Str.trim s with
  | EmptyString => Num.pzero
  | String "0" (String "x" r) | String "0" (String "X" r) => radix_literal 16 r
  | String "0" (String "o" r) | String "0" (String "O" r) => radix_literal 8 r
  | String "0" (String "b" r) | String "0" (String "B" r) => radix_literal 2 r
  | t => match Lex.scan t with
         | Some (l, EmptyString) => Lex.value l
         | _ => Num.NaN
         end
  end.

Section Conversions.
Variable P : platform.

(** ToString; an array is its elements joined by commas, with [null] and
    [undefined] elements left empty. *)
Fixpoint ToString (v : value) : string :=
  match v with
  | VUndefined => "undefined"
  | VNull => "null"
  | VBool b => if b then "true" else "false"
  | VNumber x => Number_toString P x
  | VText s => s
  | VArray l =>
      Str.join ","
        (map (fun e => match e with
                       | VUndefined | VNull => EmptyString
                       | _ => ToString e
                       end) l)
  | VObject _ => "[object Object]"
  end.

(** ToNumber, and so [Number(v)]. *)
Definition ToNumber (v : value) : float :=
  match v with
  | VUndefined => Num.NaN
  | VNull => Num.pzero
  | VBool b => if b then Num.lit 1 else Num.pzero
  | VNumber x => x
  | VText s => StringToNumber s
  | VArray _ => StringToNumber (ToString v)
  | VObject _ => Num.NaN
  end.

(** A template literal: literal text and interpolated values. *)
Definition text (parts : list value) : string :=
  Str.concat (map ToString parts).

Definition template (parts : list value) : value := VText (text parts).

End Conversions.

End Js.

Coercion VText : string >-> value.

(** Argument lists mix literal text and values; the element type of a list
    is taken from where the list is used. *)
#[global] Arguments cons {A} & a l.

(** ** Amount validation ([validateAmount], lines 72-92) *)

Inductive tokenType : Type := USDC | SOL.

Record validation : Type := { valid : bool; error : option string }.

Definition validateAmount (amount : string) (token : tokenType) : validation :=
  let num := parseFloat amount in
  if Num.isNaN num then
    {| valid := false; error := Some "Please enter a valid number" |}
  else if Num.le num (Num.lit 0) then
    {| valid := false; error := Some "Amount must be greater than 0" |}
  else if match token with USDC => Num.gt num (Num.lit 1000000) | SOL => false end then
    {| valid := false; error := Some "USDC amount too large (max: 1,000,000)" |}
  else if match token with SOL => Num.gt num (Num.lit 10000) | USDC => false end then
    {| valid := false; error := Some "SOL amount too large (max: 10,000)" |}
  else
    {| valid := true; error := None |}.

(** ** Programs

    The flows of the source are asynchronous functions that talk to the
    console, to inquirer, to the Grid SDK and to the Solana RPC endpoint, and
    that read and write two module-level variables.  A program is the tree of
    these effects. *)

(** [console.log] and [console.error] *)
Inductive channel : Type := Log | Error.

(** What a [validate] callback returns: [true], or a message (a callback
    that returns nothing usable makes inquirer show its default text). *)
Inductive verdict : Type :=
| Pass
| Fail (message : option string).

(** An inquirer question of type [input]. *)
Record question : Type := {
  name : string;
  message : string;
  validate : string -> verdict;
}.

(** The values of the menu's choices. *)
Inductive action : Type := login | balance | transfer | arbitrarySOL | exit.

Record PaymentSource : Type := {
  source_account : value;
  source_currency : string;
  source_payment_rail : string;
}.

Record PaymentDestination : Type := {
  destination_address : string;
  destination_currency : string;
  destination_payment_rail : string;
}.

Record PaymentIntentRequest : Type := {
  amount : string;
  grid_user_id : value;
  source : PaymentSource;
  destination : PaymentDestination;
}.

Record RawTransactionPayload : Type := { transaction : string }.

(** The awaited operations of [gridClient] and [solanaConnection]. *)
Inductive call : Type :=
| initAuth (email : string)
| createAccount (type email : string)
| generateSessionSecrets
| completeAuthAndCreateAccount (otpCode : string) (sessionSecrets user : value)
| completeAuth (otpCode : string) (sessionSecrets user : value)
| getAccountBalances (address : value)
| createPaymentIntent (address : value) (request : PaymentIntentRequest)
| sign (sessionSecrets session transactionPayload : value)
| send (signedTransactionPayload address : value)
| prepareArbitraryTransaction (address : value) (payload : RawTransactionPayload)
| signAndSend (sessionSecrets session transactionPayload address : value)
| getLatestBlockhash (commitment : string).

(** The two long-lived handles. *)
Inductive handle : Type :=
| GridClient (apiKey environment baseUrl : string)
| Connection (endpoint commitment : string).

(** The module-level variables [userSession] and [sessionSecrets]. *)
Record state : Type := { userSession : value; sessionSecrets : value }.

Definition initial : state := {| userSession := VNull; sessionSecrets := VNull |}.

Inductive prog (A : Type) : Type :=
| Ret (a : A)
| Throw (e : value)
| Exit (code : Z)
| Console (ch : channel) (args : list value) (k : prog A)
| Prompt (q : question) (k : string -> prog A)
| Menu (k : action -> prog A)
| Await (c : call) (k : completion value -> prog A)
| New (h : handle) (k : prog A)
| Read (k : state -> prog A)
| WriteSession (v : value) (k : prog A)
| WriteSecrets (v : value) (k : prog A).
Arguments Ret {A} a.
Arguments Throw {A} e.
Arguments Exit {A} code.
Arguments Console {A} ch args k.
Arguments Prompt {A} q k.
Arguments Menu {A} k.
Arguments Await {A} c k.
Arguments New {A} h k.
Arguments Read {A} k.
Arguments WriteSession {A} v k.
Arguments WriteSecrets {A} v k.

Fixpoint bind {A B : Type} (f : A -> prog B) (p : prog A) : prog B :=
  match p with
  | Ret a => f a
  | Throw e => Throw e
  | Exit c => Exit c
  | Console ch args k => Console ch args (bind f k)
  | Prompt q k => Prompt q (fun a => bind f (k a))
  | Menu k => Menu (fun a => bind f (k a))
  | Await c k => Await c (fun r => bind f (k r))
  | New h k => New h (bind f k)
  | Read k => Read (fun s => bind f (k s))
  | WriteSession v k => WriteSession v (bind f k)
  | WriteSecrets v k => WriteSecrets v (bind f k)
  end.

#[global] Instance prog_ret : MRet prog := @Ret.
#[global] Instance prog_bind : MBind prog := @bind.

(** [try { p } catch (e) { h e }] *)
Fixpoint try_catch {A : Type} (p : prog A) (h : value -> prog A) : prog A :=
  match p with
  | Ret a => Ret a
  | Throw e => h e
  | Exit c => Exit c
  | Console ch args k => Console ch args (try_catch k h)
  | Prompt q k => Prompt q (fun a => try_catch (k a) h)
  | Menu k => Menu (fun a => try_catch (k a) h)
  | Await c k => Await c (fun r => try_catch (k r) h)
  | New h' k => New h' (try_catch k h)
  | Read k => Read (fun s => try_catch (k s) h)
  | WriteSession v k => WriteSession v (try_catch k h)
  | WriteSecrets v k => WriteSecrets v (try_catch k h)
  end.

(** The leaves of the effects. *)
Definition console (ch : channel) (args : list value) : prog () := Console ch args (Ret ()).
Definition prompt (q : question) : prog string := Prompt q Ret.
Definition menu : prog action := Menu Ret.
Definition read : prog state := Read Ret.
Definition construct (h : handle) : prog () := New h (Ret ()).

(** An expression that may throw, and [await] of a call that may reject. *)
Definition eval {A : Type} (c : completion A) : prog A :=
  match c with
  | Normal a => Ret a
  | Throws e => Throw e
  end.

Definition await (c : call) : prog value := Await c eval.

(** ** Running a program

    The environment is scripted: the lines the user types, the menu entries
    the user picks, and the outcomes of the awaited calls, each consumed in
    order.  A prompt with a [validate] callback shows the callback's message
    and asks again until a line passes; a program whose script runs out is
    left waiting. *)

Inductive event : Type :=
| EConsole (ch : channel) (args : list value)
| EAsk (message : string)
| EInvalid (message : option string)
| EMenu
| ECall (c : call)
| ENew (h : handle)
| ESetSession (v : value)
| ESetSecrets (v : value).

Record world : Type := {
  typed : list string;
  picked : list action;
  replies : list (completion value);
}.

Inductive outcome (A : Type) : Type :=
| Returned (a : A)
| Uncaught (e : value)
| Exited (code : Z)
| Waiting.
Arguments Returned {A} a.
Arguments Uncaught {A} e.
Arguments Exited {A} code.
Arguments Waiting {A}.

Record execution (A : Type) : Type := {
  trace : list event;
  result : outcome A;
  final : state;
  remaining : world;
}.
Arguments trace {A} e.
Arguments result {A} e.
Arguments final {A} e.
Arguments remaining {A} e.

Definition emit {A : Type} (evs : list event) (x : execution A) : execution A :=
  {| trace := evs ++ trace x; result := result x;
     final := final x; remaining := remaining x |}.

Definition stop {A : Type} (r : outcome A) (s : state) (w : world) : execution A :=
  {| trace := []; result := r; final := s; remaining := w |}.

(** inquirer's loop on one question: the messages shown for the rejected
    lines, then the accepted line and what is left to type. *)
Fixpoint ask (check : string -> verdict) (lines : list string)
  : list event * option (string * list string) :=
  match lines with
  | [] => ([], None)
  | a :: rest =>
      match check a with
      | Pass => ([], Some (a, rest))
      | Fail m => let '(evs, r) := ask check rest in (EInvalid m :: evs, r)
      end
  end.

Definition set_typed (w : world) (l : list string) : world :=
  {| typed := l; picked := picked w; replies := replies w |}.
Definition set_picked (w : world) (l : list action) : world :=
  {| typed := typed w; picked := l; replies := replies w |}.
Definition set_replies (w : world) (l : list (completion value)) : world :=
  {| typed := typed w; picked := picked w; replies := l |}.

Definition set_session (s : state) (v : value) : state :=
  {| userSession := v; sessionSecrets := sessionSecrets s |}.
Definition set_secrets (s : state) (v : value) : state :=
  {| userSession := userSession s; sessionSecrets := v |}.

Fixpoint run {A : Type} (p : prog A) (w : world) (s : state) : execution A :=
  match p with
  | Ret a => stop (Returned a) s w
  | Throw e => stop (Uncaught e) s w
  | Exit c => stop (Exited c) s w
  | Console ch args k => emit [EConsole ch args] (run k w s)
  | Prompt q k =>
      match ask (validate q) (typed w) with
      | (evs, Some (a, rest)) =>
          emit (EAsk (message q) :: evs) (run (k a) (set_typed w rest) s)
      | (evs, None) =>
          emit (EAsk (message q) :: evs) (stop Waiting s (set_typed w []))
      end
  | Menu k =>
      match picked w with
      | a :: rest => emit [EMenu] (run (k a) (set_picked w rest) s)
      | [] => emit [EMenu] (stop Waiting s w)
      end
  | Await c k =>
      match replies w with
      | r :: rest => emit [ECall c] (run (k r) (set_replies w rest) s)
      | [] => emit [ECall c] (stop Waiting s w)
      end
  | New h k => emit [ENew h] (run k w s)
  | Read k => run (k s) w s
  | WriteSession v k => emit [ESetSession v] (run k w (set_session s v))
  | WriteSecrets v k => emit [ESetSecrets v] (run k w (set_secrets s v))
  end.

(** ** Configuration (lines 18-36)

    [env] is [process.env] once [dotenv.config()] has run, [argv] is
    [process.argv]. *)

Record config : Type := {
  GRID_ENVIRONMENT : string;
  GRID_BASE_URL : string;
  GRID_API_KEY : option string;
  DEBUG_MODE : bool;
}.

(** [process.env[k] || fallback] *)
Definition env_or (env : gmap string string) (k fallback : string) : string :=
  match env !! k with
  | Some v => if Str.is_empty v then fallback else v
  | None => fallback
  end.

Definition argv_includes (argv : list string) (flag : string) : bool :=
  existsb (String.eqb flag) argv.

Definition env_is (env : gmap string string) (k v : string) : bool :=
  match env !! k with
  | Some x => String.eqb x v
  | None => false
  end.

Definition load_config (env : gmap string string) (argv : list string) : config :=
  let environment := env_or env "GRID_ENVIRONMENT" "sandbox" in
  {| GRID_ENVIRONMENT := environment;
     GRID_BASE_URL := env_or env "GRID_BASE_URL" "https://grid.squads.xyz";
     GRID_API_KEY :=
       if String.eqb environment "production"
       then env !! "GRID_PRODUCTION_API_KEY"
       else env !! "GRID_SANDBOX_API_KEY";
     DEBUG_MODE :=
       env_is env "DEBUG" "true" || argv_includes argv "--debug" || argv_includes argv "-d" |}.

(** [!GRID_API_KEY]: the variable is unset or empty. *)
Definition key_missing (key : option string) : bool :=
  match key with
  | Some k => Str.is_empty k
  | None => true
  end.

(** The name of the variable that holds the key of the selected
    environment. *)
Definition key_variable (environment : string) : string :=
  if String.eqb environment "production"
  then "GRID_PRODUCTION_API_KEY" else "GRID_SANDBOX_API_KEY".

(** ** The flows *)

Definition when (c : bool) (p : prog ()) : prog () := if c then p else Ret ().

Fixpoint forEach {A : Type} (f : A -> prog ()) (l : list A) : prog () :=
  match l with
  | [] => Ret ()
  | x :: r => f x;; forEach f r
  end.

Definition get (v : value) (k : string) : prog value := eval (Js.get v k).

(** [p || q]: [q] is evaluated only when [p] is falsy. *)
Definition or_else (p q : prog value) : prog value :=
  v ← p; if Js.truthy v then Ret v else q.

(** Modelled from the spec: the constant [LAMPORTS_PER_SOL] of
    [@solana/web3.js], whose declaration is not part of the sources; the
    specification fixes the exponent of SOL at 10^9 lamports. *)
Definition LAMPORTS_PER_SOL : float := Num.lit 1000000000.

(** The signature extraction after [gridClient.send] (lines 411-418):
    [transaction_signature] first, then [signature], then
    [data.signature]; [null] when none is truthy. *)
Definition signatureOfSend (signatureResponse : value) : value :=
  let r := signatureResponse in
  if Js.truthy (Js.and r (Js.member r "transaction_signature")) then
    Js.member r "transaction_signature"
  else if Js.truthy (Js.and r (Js.or (Js.member r "signature")
                                     (Js.opt (Js.member r "data") "signature"))) then
    Js.or (Js.member r "signature") (Js.opt (Js.member r "data") "signature")
  else VNull.

(** The signature extraction after [gridClient.signAndSend]
    (lines 652-659): [signature] first, then [transaction_signature], then
    [data.signature]. *)
Definition signatureOfSignAndSend (executedTx : value) : value :=
  let r := executedTx in
  if Js.truthy (Js.and r (Js.member r "signature")) then
    Js.member r "signature"
  else if Js.truthy (Js.and r (Js.or (Js.member r "transaction_signature")
                                     (Js.opt (Js.member r "data") "signature"))) then
    Js.or (Js.member r "transaction_signature") (Js.opt (Js.member r "data") "signature")
  else VNull.

(** [session: userSession.session || userSession.authentication], the
    signing context of [gridClient.sign] (line 400). *)
Definition signingContext (session : value) : prog value :=
  or_else (get session "session") (get session "authentication").

Section Flows.

Variable P : platform.
Variable cfg : config.

Abbreviation tpl := (Js.template P).

Definition debugLog (args : list value) : prog () :=
  when (DEBUG_MODE cfg) (console Log args).

Definition simpleLog (message : value) : prog () :=
  when (negb (DEBUG_MODE cfg)) (console Log [message]).

Definition cluster : string :=
  if String.eqb (GRID_ENVIRONMENT cfg) "sandbox" then "devnet" else "mainnet-beta".

Definition getExplorerUrl (signature : value) : value :=
  tpl ["https://explorer.solana.com/tx/"; signature; "?cluster="; VText cluster].

(** [new PublicKey(v)] *)
Definition newPublicKey (v : value) : prog PublicKey :=
  match PublicKey_rejects P v with
  | Some e => Throw e
  | None => Ret {| key_source := v |}
  end.

Definition validateSolanaAddress (address : string) : bool :=
  match PublicKey_rejects P (VText address) with
  | Some _ => false
  | None => true
  end.

(** The [validate] callbacks of the two transfer prompts. *)
Definition validateRecipient (input : string) : verdict :=
  if Str.is_empty (Str.trim input) then Fail (Some "Please enter a recipient address")
  else if negb (validateSolanaAddress (Str.trim input)) then
    Fail (Some "Please enter a valid Solana address")
  else Pass.

Definition validateAmountInput (token : tokenType) (input : string) : verdict :=
  if Str.is_empty (Str.trim input) then Fail (Some "Please enter an amount")
  else
    let validation := validateAmount (Str.trim input) token in
    if valid validation then Pass else Fail (error validation).

Definition recipientQuestion : question :=
  {| name := "recipientAddress";
     message := "Enter the recipient's Solana address:";
     validate := validateRecipient |}.

Definition amountQuestion (token : tokenType) : question :=
  {| name := "amount";
     message := match token with
                | USDC => "Enter the amount of USDC to send:"
                | SOL => "Enter the amount of SOL to send:"
                end;
     validate := validateAmountInput token |}.

Definition plainQuestion (n m : string) : question :=
  {| name := n; message := m; validate := fun _ => Pass |}.

(** [userSession.smart_account_address || userSession.address] *)
Definition accountAddressOf (session : value) : prog value :=
  or_else (get session "smart_account_address") (get session "address").

(** *** [initializeGridClient] (lines 95-122) *)
Definition initializeGridClient : prog () :=
  let key := default EmptyString (GRID_API_KEY cfg) in
  (if DEBUG_MODE cfg then
     console Log ["🔧 Grid SDK Configuration:"];;
     console Log [tpl ["  Environment: "; VText (GRID_ENVIRONMENT cfg)]];;
     console Log [tpl ["  API Key: "; VText (Str.substring_to 8 key); "...";
                       VText (Str.substring_from (String.length key - 8) key)]];;
     console Log [tpl ["  Base URL: "; VText (GRID_BASE_URL cfg)]];;
     console Log [tpl ["  Solana Network: "; VText cluster]];;
     console Log [tpl ["  Full API URL: "; VText (GRID_BASE_URL cfg); "/api/grid/v1"]];;
     console Log [tpl ["  Debug Mode: "; if DEBUG_MODE cfg then "ON" else "OFF"]]
   else
     console Log [tpl ["🚀 Grid CLI - "; VText (Str.toUpperCase (GRID_ENVIRONMENT cfg));
                       " Environment"]]);;
  construct (GridClient key (GRID_ENVIRONMENT cfg) (GRID_BASE_URL cfg));;
  let solanaNetwork := clusterApiUrl P cluster in
  debugLog [tpl ["  Connecting to: "; VText solanaNetwork]];;
  construct (Connection solanaNetwork "confirmed").

(** *** [verifyOtp] (lines 207-269) *)
Definition verifyOtp (email : string) (isNewUser : bool) : prog () :=
  otp ← prompt (plainQuestion "otp" "Enter the OTP from your email:");
  try_catch
    (secrets ← await generateSessionSecrets;
     WriteSecrets secrets (Ret ());;
     authResponse ←
       (if isNewUser then
          let userContext := VObject [("email", VText email); ("signers", VArray [])] in
          s ← read;
          r ← await (completeAuthAndCreateAccount otp (sessionSecrets s) userContext);
          console Log ["Registration successful!"];;
          Ret r
        else
          s ← read;
          let userContext :=
            Js.or (userSession s)
                  (VObject [("email", VText email); ("signers", VArray [])]) in
          r ← await (completeAuth otp (sessionSecrets s) userContext);
          console Log ["Login successful!"];;
          Ret r);
     if Js.truthy authResponse then
       WriteSession authResponse (Ret ());;
       simpleLog "✅ Login successful!";;
       debugLog ["User session created."];;
       s ← read;
       accountAddress ← accountAddressOf (userSession s);
       when (Js.truthy accountAddress)
         (simpleLog (tpl ["🏦 Account: "; accountAddress]);;
          debugLog ["Account address:"; accountAddress]);;
       s ← read;
       debugLog ["Session structure:"; Js.Object_keys (userSession s)]
     else
       Throw (Js.Error "Authentication completed, but no session data was returned."))
    (fun error =>
       console Error ["OTP verification failed:"; error];;
       console Error ["Error details:"; error]).

(** *** [checkBalance] (lines 271-320) *)

(** [token.amount_decimal || (Number(token.amount) / Math.pow(10, token.decimals || 6))] *)
Definition tokenBalance (token : value) : prog value :=
  or_else (get token "amount_decimal")
    (amount ← get token "amount";
     decimals ← get token "decimals";
     Ret (VNumber (Num.div (Js.ToNumber P amount)
                           (Math_pow P (Num.lit 10)
                              (Js.ToNumber P (Js.or decimals (VNumber (Num.lit 6)))))))).

Definition printToken (token : value) : prog () :=
  balance ← tokenBalance token;
  symbol ← get token "symbol";
  name ← get token "name";
  console Log [tpl ["  "; Js.or symbol "Unknown"; ": "; balance;
                    " ("; Js.or name "Unknown token"; ")"]].

(** [tokens.find((b) => b.symbol === 'USDC')] *)
Fixpoint findUSDC (tokens : list value) : prog value :=
  match tokens with
  | [] => Ret VUndefined
  | b :: r =>
      symbol ← get b "symbol";
      if Js.is_text "USDC" symbol then Ret b else findUSDC r
  end.

Definition printTokens (tokens : value) : prog () :=
  console Log [tpl ["Found "; Js.member tokens "length"; " token(s):"]];;
  match tokens with
  | VArray l =>
      forEach printToken l;;
      usdcBalance ← findUSDC l;
      if Js.truthy usdcBalance then
        balance ← tokenBalance usdcBalance;
        console Log [tpl [Str.lf +:+ "💰 Your USDC balance is: "; balance; " USDC"]]
      else
        console Log [VText (Str.lf +:+ "⚠️ No USDC balance found for this account.")]
  | _ => Throw (Js.not_a_function "tokens.forEach")
  end.

Definition checkBalance : prog () :=
  s ← read;
  if negb (Js.truthy (userSession s)) then
    console Log ["Please log in first."]
  else
    try_catch
      (s ← read;
       accountAddress ← accountAddressOf (userSession s);
       if negb (Js.truthy accountAddress) then
         console Error ["No account address found in session"]
       else
         console Log [tpl ["Fetching balance for account: "; accountAddress]];;
         balancesResponse ← await (getAccountBalances accountAddress);
         success ← get balancesResponse "success";
         if negb (Js.truthy success) then
           e ← get balancesResponse "error";
           console Error ["Failed to fetch balance:"; e]
         else
           data ← get balancesResponse "data";
           (if Js.truthy (Js.opt data "tokens") then
              printTokens (Js.opt data "tokens")
            else
              console Log ["No token balances found for this account."]);;
           when (Js.truthy (Js.opt data "sol"))
             (console Log [tpl ["SOL balance: "; Js.opt data "sol"; " SOL"]]))
      (fun error => console Error ["Failed to fetch balance:"; error]).

(** *** [transferTokens] (lines 322-443) *)

Definition baseUnits (amount : string) : float :=
  Num.Math_floor (Num.mul (parseFloat amount) (Num.lit 1000000)).

Definition transferTokens : prog () :=
  s ← read;
  if negb (Js.truthy (userSession s)) || negb (Js.truthy (sessionSecrets s)) then
    console Log ["Please log in first."]
  else
    recipientAddress ← prompt recipientQuestion;
    amount ← prompt (amountQuestion USDC);
    let amountInBaseUnits := baseUnits amount in
    s ← read;
    accountAddress ← accountAddressOf (userSession s);
    if negb (Js.truthy accountAddress) then
      console Error ["No account address found in session"]
    else
      try_catch
        (simpleLog "💸 Creating USDC payment intent...";;
         debugLog ["Creating USDC payment intent..."];;
         s ← read;
         user_id ← get (userSession s) "grid_user_id";
         let paymentIntentRequest :=
           {| amount := Number_toString P amountInBaseUnits;
              grid_user_id := user_id;
              source := {| source_account := accountAddress;
                           source_currency := "usdc";
                           source_payment_rail := "smart_account" |};
              destination := {| destination_address := recipientAddress;
                                destination_currency := "usdc";
                                destination_payment_rail := "smart_account" |} |} in
         paymentIntentResponse ← await (createPaymentIntent accountAddress paymentIntentRequest);
         data ← get paymentIntentResponse "data";
         if negb (Js.truthy (Js.opt data "transactionPayload")) then
           e ← get paymentIntentResponse "error";
           Throw (Js.Error (Js.text P ["Failed to create payment intent: ";
                                       Js.or e "Response did not contain transaction payload"]))
         else
           let transactionPayload := Js.opt data "transactionPayload" in
           simpleLog "✍️ Signing USDC transaction...";;
           debugLog ["Payment intent created. Signing transaction..."];;
           s ← read;
           session ← signingContext (userSession s);
           signedPayload ← await (sign (sessionSecrets s) session transactionPayload);
           simpleLog "📤 Sending USDC transaction...";;
           debugLog ["Transaction signed. Sending..."];;
           signatureResponse ← await (send signedPayload accountAddress);
           let txSignature := signatureOfSend signatureResponse in
           if Js.truthy txSignature then
             simpleLog "✅ USDC transfer successful!";;
             simpleLog (tpl ["💰 Sent "; VText amount; " USDC to "; VText recipientAddress]);;
             simpleLog (tpl ["🔗 View transaction: "; getExplorerUrl txSignature]);;
             debugLog ["✅ Transaction successful! Signature:"; txSignature];;
             debugLog [tpl ["📊 Sent "; VText amount; " USDC to "; VText recipientAddress]];;
             confirmed_at ← get signatureResponse "confirmed_at";
             when (Js.truthy confirmed_at)
               (debugLog [tpl ["⏰ Confirmed at: "; confirmed_at]])
           else
             console Log ["✅ Transaction submitted successfully, but signature format is unexpected."];;
             when (DEBUG_MODE cfg) (console Log ["Received response:"; signatureResponse]))
        (fun error =>
           console Error ["❌ USDC transfer failed:"; error];;
           when (DEBUG_MODE cfg) (console Error ["Error details:"; error])).

(** *** [transferSOLArbitrary] (lines 445-681) *)

Definition lamportsOf (amount : string) : float :=
  Num.Math_floor (Num.mul (parseFloat amount) LAMPORTS_PER_SOL).

(** [SystemProgram.transfer({ fromPubkey, toPubkey, lamports })] *)
Definition SystemProgram_transfer (fromKey toKey : PublicKey) (amount : float)
  : prog TransferInstruction :=
  match transfer_rejects P amount with
  | Some e => Throw e
  | None => Ret {| fromPubkey := fromKey; toPubkey := toKey; lamports := amount |}
  end.

(** The account keys of a transfer instruction as [@solana/web3.js] lays
    them out: the source signs and is writable, the destination is
    writable. *)
Definition instructionKeys (i : TransferInstruction) : list (PublicKey * bool * bool) :=
  [(fromPubkey i, true, true); (toPubkey i, false, true)].

Definition systemProgramId : string := "11111111111111111111111111111111".

Definition printKey (index : nat) (key : PublicKey * bool * bool) : prog () :=
  let '(pubkey, isSigner, isWritable) := key in
  console Log [tpl ["      "; Js.of_nat index; ": "; VText (toBase58 P pubkey); " (";
                    if isSigner then "signer" else "non-signer"; ", ";
                    if isWritable then "writable" else "readonly"; ")"]].

Fixpoint forEachIndexed {A : Type} (f : nat -> A -> prog ()) (i : nat) (l : list A) : prog () :=
  match l with
  | [] => Ret ()
  | x :: r => f i x;; forEachIndexed f (S i) r
  end.

Definition printInstruction (index : nat) (i : TransferInstruction) : prog () :=
  console Log [tpl ["  Instruction "; Js.of_nat index; ":"]];;
  console Log [tpl ["    Program ID: "; VText systemProgramId]];;
  console Log [tpl ["    Keys: "; Js.of_nat (length (instructionKeys i)); " accounts"]];;
  forEachIndexed printKey 0 (instructionKeys i).

(** [JSON.stringify({ transaction }, null, 2)]; the base64 text needs no
    escaping. *)
Definition stringifyPayload (p : RawTransactionPayload) : string :=
  "{" +:+ Str.lf +:+ "  " +:+ Str.dq +:+ "transaction" +:+ Str.dq +:+ ": " +:+
  Str.dq +:+ transaction p +:+ Str.dq +:+ Str.lf +:+ "}".

(** The [catch] of the two inner [try] blocks: log the failure in debug
    mode and throw the error again. *)
Definition rethrow (what : string) (error : value) : prog value :=
  when (DEBUG_MODE cfg)
    (console Error [VText ("❌ " +:+ what +:+ " failed:")];;
     m ← get error "message";
     console Error [tpl ["  Error message: "; m]];;
     c ← get error "code";
     console Error [tpl ["  Error code: "; c]];;
     c ← get error "cause";
     console Error [tpl ["  Error cause: "; c]];;
     console Error ["  Full error:"; error]);;
  Throw error.

Definition transferSOLArbitrary : prog () :=
  s ← read;
  if negb (Js.truthy (userSession s)) || negb (Js.truthy (sessionSecrets s)) then
    console Log ["Please log in first."]
  else
    when (DEBUG_MODE cfg)
      (console Log ["🔐 Session Info:"];;
       console Log [tpl ["  User Session Keys: "; Js.Object_keys (userSession s)]];;
       console Log [tpl ["  Session Secrets Present: "; VBool (Js.truthy (sessionSecrets s))]];;
       when (Js.truthy (Js.member (userSession s) "grid_user_id"))
         (console Log [tpl ["  Grid User ID: "; Js.member (userSession s) "grid_user_id"]]);;
       when (Js.truthy (Js.member (userSession s) "smart_account_address"))
         (console Log [tpl ["  Smart Account: "; Js.member (userSession s) "smart_account_address"]]);;
       when (Js.truthy (Js.member (userSession s) "address"))
         (console Log [tpl ["  Address: "; Js.member (userSession s) "address"]]));;
    recipientAddress ← prompt recipientQuestion;
    amount ← prompt (amountQuestion SOL);
    s ← read;
    accountAddress ← accountAddressOf (userSession s);
    if negb (Js.truthy accountAddress) then
      console Error ["No account address found in session"]
    else
      when (DEBUG_MODE cfg)
        (console Log ["🏦 Address Analysis:"];;
         when (Js.truthy (Js.member (userSession s) "smart_account_address"))
           (console Log [tpl ["  Smart Account: "; Js.member (userSession s) "smart_account_address"]]);;
         when (Js.truthy (Js.member (userSession s) "address"))
           (console Log [tpl ["  Regular Address: "; Js.member (userSession s) "address"]]);;
         console Log [tpl ["  Using Address: "; accountAddress]]);;
      try_catch
        (simpleLog "🔧 Creating SOL transfer transaction...";;
         debugLog ["Creating arbitrary SOL transfer transaction..."];;
         when (DEBUG_MODE cfg)
           (console Log ["📊 Transaction Details:"];;
            console Log [tpl ["  From: "; accountAddress]];;
            console Log [tpl ["  To: "; VText recipientAddress]];;
            console Log [tpl ["  Amount: "; VText amount; " SOL"]]);;
         fromKey ← newPublicKey accountAddress;
         toKey ← newPublicKey (VText recipientAddress);
         let amountInLamports := lamportsOf amount in
         debugLog ["📊 Transaction Details:"];;
         debugLog [tpl ["  From (Grid Account): "; VText (toBase58 P fromKey)]];;
         debugLog [tpl ["  To: "; VText (toBase58 P toKey)]];;
         debugLog [tpl ["  Amount: "; VNumber amountInLamports; " lamports (";
                        VText amount; " SOL)"]];;
         debugLog ["  Fee Payer: Grid will handle internally"];;
         transferInstruction ← SystemProgram_transfer fromKey toKey amountInLamports;
         debugLog ["✅ Transfer instruction created"];;
         simpleLog "🔗 Preparing transaction...";;
         debugLog [tpl ["🔗 Fetching recent blockhash from "; VText cluster; "..."]];;
         latest ← await (getLatestBlockhash "finalized");
         blockhash ← eval (Js.destructure latest "blockhash");
         debugLog [tpl ["  Blockhash: "; blockhash]];;
         let tx := {| recentBlockhash := blockhash;
                      feePayer := fromKey;
                      instructions := [transferInstruction] |} in
         debugLog ["✅ Transaction created with Grid account as fee payer"];;
         base64Transaction ← eval (serialize_base64 P tx);
         debugLog ["✅ Transaction serialized"];;
         debugLog [tpl ["📄 Base64 Transaction Length: ";
                        Js.of_nat (String.length base64Transaction)]];;
         debugLog ["Raw transaction created, preparing with Grid SDK..."];;
         let rawTransactionPayload := {| transaction := base64Transaction |} in
         when (DEBUG_MODE cfg)
           (console Log ["📦 Raw Transaction Payload:"];;
            console Log [tpl ["  transaction length: ";
                              Js.of_nat (String.length base64Transaction)]];;
            console Log [tpl ["  transaction (first 100 chars): ";
                              VText (Str.substring_to 100 base64Transaction); "..."]];;
            console Log ["🔍 Transaction Structure Analysis:"];;
            console Log [tpl ["  Transaction Instructions: ";
                              Js.of_nat (length (instructions tx))]];;
            console Log [tpl ["  Fee Payer: "; VText (toBase58 P (feePayer tx))]];;
            console Log [tpl ["  Recent Blockhash: "; recentBlockhash tx]];;
            forEachIndexed printInstruction 0 (instructions tx));;
         simpleLog "🔄 Preparing transaction with Grid...";;
         debugLog ["🔄 Calling prepareArbitraryTransaction..."];;
         debugLog [tpl ["  Account: "; accountAddress]];;
         debugLog [tpl ["  Payload: "; VText (stringifyPayload rawTransactionPayload)]];;
         prepareResponse ←
           try_catch (await (prepareArbitraryTransaction accountAddress rawTransactionPayload))
                     (rethrow "prepareArbitraryTransaction");
         when (DEBUG_MODE cfg)
           (console Log ["📋 Prepare Response Details:"];;
            data ← get prepareResponse "data";
            console Log [tpl ["  Data exists: "; VBool (Js.truthy data)]];;
            when (Js.truthy (Js.member prepareResponse "error"))
              (console Log [tpl ["  Error: "; Js.member prepareResponse "error"]]);;
            when (Js.truthy data)
              (console Log [tpl ["  Prepared payload keys: "; Js.Object_keys data]];;
               when (Js.truthy (Js.member data "transaction"))
                 (console Log [tpl ["  Prepared transaction length: ";
                                    Js.member (Js.member data "transaction") "length"]])));;
         data ← get prepareResponse "data";
         if negb (Js.truthy data) then
           Throw (Js.Error (Js.text P ["Failed to prepare transaction: ";
                                       Js.or (Js.member prepareResponse "error")
                                             "No data in response"]))
         else
           let transactionPayload := data in
           debugLog ["✅ Transaction prepared successfully"];;
           simpleLog "📤 Executing SOL transaction...";;
           debugLog ["📤 Executing transaction with Grid SDK..."];;
           s ← read;
           when (DEBUG_MODE cfg)
             (console Log ["🔧 Session details:"];;
              console Log [tpl ["  sessionSecrets present: "; VBool (Js.truthy (sessionSecrets s))]];;
              console Log [tpl ["  userSession keys: "; Js.Object_keys (userSession s)]];;
              console Log [tpl ["  authentication present: ";
                                VBool (Js.truthy (Js.member (userSession s) "authentication"))]]);;
           executedTx ←
             try_catch
               (authentication ← get (userSession s) "authentication";
                await (signAndSend (sessionSecrets s) authentication transactionPayload accountAddress))
               (rethrow "signAndSend");
           let txSignature := signatureOfSignAndSend executedTx in
           if Js.truthy txSignature then
             simpleLog "✅ SOL transfer successful!";;
             simpleLog (tpl ["💰 Sent "; VText amount; " SOL to "; VText recipientAddress]);;
             simpleLog (tpl ["🔗 View transaction: "; getExplorerUrl txSignature]);;
             debugLog ["✅ Arbitrary transaction successful! Signature:"; txSignature];;
             debugLog [tpl ["📊 Sent "; VText amount; " SOL to "; VText recipientAddress]]
           else
             console Log ["✅ Transaction submitted successfully, but signature format is unexpected."];;
             when (DEBUG_MODE cfg) (console Log ["Received response:"; executedTx]))
        (fun error =>
           console Error ["❌ SOL transfer failed:"; error];;
           when (DEBUG_MODE cfg) (console Error ["Error details:"; error])).

(** *** [loginOrRegister] (lines 128-205)

    The flow is written over the OTP step it calls, so that its own
    effects can be told from the step's; the source calls [verifyOtp]. *)

(** [error.message && error.message.includes(a)], [|| ...includes(b)] *)
Definition messageIncludes (what : string) (m : value) (needles : list string) : prog bool :=
  if Js.truthy m then
    (fix any (l : list string) : prog bool :=
       match l with
       | [] => Ret false
       | n :: r =>
           found ← eval (Js.includes what m n);
           if found : bool then Ret true else any r
       end) needles
  else Ret false.

Section Login.

Variable otpStep : string -> bool -> prog ().

(** [initAuth], then the OTP step when the response carries [data]. *)
Definition initAuthThenOtp (email : string) (otherwise : prog ()) : prog () :=
  authResponse ← await (initAuth email);
  if Js.truthy (Js.and authResponse (Js.member authResponse "data")) then
    simpleLog "📬 OTP sent to your email. Please check your inbox.";;
    debugLog ["OTP sent to your email. Please check your inbox to log in."];;
    otpStep email false
  else otherwise.

Definition retryLogin (email : string) : prog () :=
  simpleLog "👤 Account already exists. Retrying login...";;
  debugLog ["Account already exists. Retrying login..."];;
  try_catch
    (initAuthThenOtp email (Ret ()))
    (fun retryError =>
       m ← get retryError "message";
       console Error ["❌ Login retry failed:"; m]).

Definition register (email : string) : prog () :=
  simpleLog "👤 User not found. Attempting to register...";;
  debugLog ["User not found. Attempting to register..."];;
  try_catch
    (accountResponse ← await (createAccount "email" email);
     simpleLog "📬 Account creation initiated. OTP sent to your email.";;
     debugLog ["Account creation initiated. OTP sent to your email. Please check your inbox to complete registration."];;
     otpStep email true)
    (fun registrationError =>
       (if DEBUG_MODE cfg then
          console Log ["🔍 Registration Error Details:"];;
          m ← get registrationError "message";
          console Log [tpl ["  Error Message: "; m]];;
          c ← get registrationError "code";
          console Log [tpl ["  Error Code: "; Js.or c "N/A"]]
        else
          m ← get registrationError "message";
          console Log [tpl ["❌ Registration failed: "; m]]);;
       m ← get registrationError "message";
       exists_ ← messageIncludes "registrationError.message.includes" m ["already exists"];
       if exists_ : bool then retryLogin email
       else console Error ["❌ Registration failed:"; m]).

Definition loginOrRegisterWith : prog () :=
  email ← prompt (plainQuestion "email" "Enter your email address:");
  try_catch
    (simpleLog "📧 Checking for existing user...";;
     debugLog ["Checking for existing user..."];;
     initAuthThenOtp email (Throw (Js.Error "Failed to initialize authentication")))
    (fun error =>
       (if DEBUG_MODE cfg then
          console Log ["🔍 Authentication Error Details:"];;
          m ← get error "message";
          console Log [tpl ["  Error Message: "; m]];;
          c ← get error "code";
          console Log [tpl ["  Error Code: "; Js.or c "N/A"]];;
          console Log [tpl ["  Environment: "; VText (GRID_ENVIRONMENT cfg)]]
        else
          m ← get error "message";
          console Log [tpl ["❌ Authentication failed: "; m]]);;
       m ← get error "message";
       notFound ← messageIncludes "error.message.includes" m ["User not found"; "not found"];
       if notFound : bool then register email
       else
         simpleLog "🔄 This might be an existing account. Try entering OTP if you received one.";;
         debugLog ["Authentication issue detected. This might be an existing account. Try entering OTP if you received one."];;
         when (DEBUG_MODE cfg)
           (console Log ["If you did not receive an OTP, the error above shows what went wrong."]);;
         otpStep email false).

End Login.

Definition loginOrRegister : prog () := loginOrRegisterWith verifyOtp.

(** *** [mainMenu] (lines 685-721) and [main] (lines 725-729)

    One round of the menu answers whether the menu is to be shown again;
    [mainMenu n] unrolls the recursion of the source [n] times. *)
Definition dispatch (choice : action) : prog bool :=
  match choice with
  | login => loginOrRegister;; Ret true
  | balance => checkBalance;; Ret true
  | transfer => transferTokens;; Ret true
  | arbitrarySOL => transferSOLArbitrary;; Ret true
  | exit => console Log ["Goodbye!"];; Ret false
  end.

Definition menuRound : prog bool :=
  console Log [VText (Str.lf +:+ "------------------")];;
  choice ← menu;
  dispatch choice.

Fixpoint mainMenu (rounds : nat) : prog bool :=
  match rounds with
  | O => Ret true
  | S n => again ← menuRound; if again : bool then mainMenu n else Ret false
  end.

Definition main (rounds : nat) : prog bool :=
  initializeGridClient;;
  console Log ["Welcome to the Grid SDK CLI Tool!"];;
  mainMenu rounds.

End Flows.

(** *** The script from its first line: the configuration check, then
    [main()] *)
Definition script (P : platform) (env : gmap string string) (argv : list string)
    (rounds : nat) : prog bool :=
  let cfg := load_config env argv in
  if key_missing (GRID_API_KEY cfg) then
    console Error ["❌ ERROR: Missing API key for environment:";
                   VText (Str.toUpperCase (GRID_ENVIRONMENT cfg))];;
    console Error ["📝 Please set the following environment variable:"];;
    console Error [Js.template P ["   "; VText (key_variable (GRID_ENVIRONMENT cfg))]];;
    console Error ["💡 Copy .env.example to .env and add your API keys"];;
    Exit 1
  else main P cfg rounds.

(** ** A platform to run examples on

    A stand-in for Node.js with [@solana/web3.js], exact where the examples
    below go: powers of ten with an integral exponent are correctly rounded,
    integers print in decimal, a key is a base-58 string of 32 bytes, and a
    transaction serialises to a readable dump instead of the wire format. *)

Module Sample.

Definition pow (b y : float) : float :=
  match Num.to_Z b, Num.to_Z y with
  | Some 10, Some n => Num.of_decimal false 1 n
  | _, _ => Num.NaN
  end.

Definition show (x : float) : string :=
  match x with
  | S754_nan => "NaN"
  | S754_infinity s => if s then "-Infinity" else "Infinity"
  | _ => match Num.to_Z x with
         | Some n => pretty n
         | None => "?"
         end
  end.

Definition alphabet : string :=
  "123456789ABCDEFGHJKLMNPQRSTUVWXYZabcdefghijkmnopqrstuvwxyz".

Fixpoint position (c : ascii) (s : string) (i : N) : option N :=
  match s with
  | EmptyString => None
  | String d r => if Ascii.eqb c d then Some i else position c r (i + 1)%N
  end.

Fixpoint base58 (s : string) (acc : N) : option N :=
  match s with
  | EmptyString => Some acc
  | String c r =>
      match position c alphabet 0%N with
      | Some d => base58 r (58 * acc + d)%N
      | None => None
      end
  end.

Fixpoint leading_ones (s : string) : nat :=
  match s with
  | String "1" r => S (leading_ones r)
  | _ => O
  end.

Definition byte_length (n : N) : nat := Nat.div (N.size_nat n + 7) 8.

Definition is_key (s : string) : bool :=
  match base58 s 0%N with
  | Some n => Nat.eqb (leading_ones s + byte_length n) 32
  | None => false
  end.

Definition rejects (v : value) : option value :=
  match v with
  | VText s => if is_key s then None else Some (Js.Error "Invalid public key input")
  | _ => Some (Js.Error "Invalid public key input")
  end.

Definition base58_of (k : PublicKey) : string :=
  match key_source k with
  | VText s => s
  | _ => EmptyString
  end.

Definition transfer_check (x : float) : option value :=
  match Num.to_Z x with
  | Some n => if (0 <=? n) && (n <? 2 ^ 64) then None
              else Some (Js.Error "lamports out of range")
  | None => Some (Js.Error "lamports is not an integer")
  end.

Definition dump (tx : Transaction) : completion string :=
  match recentBlockhash tx with
  | VText h =>
      Normal (Str.concat
                (map (fun i => base58_of (fromPubkey i) +:+ ">" +:+
                               base58_of (toPubkey i) +:+ ":" +:+
                               show (lamports i) +:+ ";")
                     (instructions tx)) +:+ "@" +:+ h)
  | _ => Throws (Js.Error "Transaction recentBlockhash required")
  end.

Definition endpoint (cluster : string) : string :=
  "https://api." +:+ cluster +:+ ".solana.com".

Definition node : platform :=
  {| Math_pow := pow;
     Number_toString := show;
     PublicKey_rejects := rejects;
     toBase58 := base58_of;
     transfer_rejects := transfer_check;
     serialize_base64 := dump;
     clusterApiUrl := endpoint |}.

Definition quiet : config :=
  {| GRID_ENVIRONMENT := "sandbox";
     GRID_BASE_URL := "https://grid.squads.xyz";
     GRID_API_KEY := Some "sandbox-key-0123456789";
     DEBUG_MODE := false |}.

Definition verbose : config :=
  {| GRID_ENVIRONMENT := "sandbox";
     GRID_BASE_URL := "https://grid.squads.xyz";
     GRID_API_KEY := Some "sandbox-key-0123456789";
     DEBUG_MODE := true |}.

Definition ADDR1 : string := "So11111111111111111111111111111111111111112".
Definition ADDR2 : string := "EPjFWdd5AufqSSqeM2qN1xzybapC8G4wEGGkZwyTDt1v".

Definition session : value :=
  VObject [("address", VText ADDR1);
           ("grid_user_id", VText "user-1");
           ("authentication", VArray [VObject [("provider", VText "privy")]])].

Definition secrets : value := VArray [VObject [("publicKey", VText "pk")]].

Definition logged_in : state := {| userSession := session; sessionSecrets := secrets |}.

Definition script (lines : list string) (outcomes : list (completion value)) : world :=
  {| typed := lines; picked := []; replies := outcomes |}.

End Sample.

(** * Properties *)

(** ** Reasoning about programs

    [wp Q R p s] says that [p], started in state [s], emits only events that
    satisfy [Q] and, wherever it stops or is left waiting for its
    environment, does so with an outcome and a state that satisfy [R]; a
    prompt hands on only lines that its [validate] callback passes.  The
    predicate speaks about the program tree, so about every environment. *)

Section Logic.

Variable Q : event -> Prop.

Fixpoint wp {A : Type} (R : outcome A -> state -> Prop) (p : prog A) (s : state) : Prop :=
  match p with
  | Ret a => R (Returned a) s
  | Throw e => R (Uncaught e) s
  | Exit c => R (Exited c) s
  | Console ch args k => Q (EConsole ch args) /\ wp R k s
  | Prompt q k =>
      Q (EAsk (message q)) /\ (forall m, Q (EInvalid m)) /\ R Waiting s /\
      forall a, validate q a = Pass -> wp R (k a) s
  | Menu k => Q EMenu /\ R Waiting s /\ forall a, wp R (k a) s
  | Await c k => Q (ECall c) /\ R Waiting s /\ forall r, wp R (k r) s
  | New h k => Q (ENew h) /\ wp R k s
  | Read k => wp R (k s) s
  | WriteSession v k => Q (ESetSession v) /\ wp R k (set_session s v)
  | WriteSecrets v k => Q (ESetSecrets v) /\ wp R k (set_secrets s v)
  end.

(** What [R] asks of a program's outcome is asked of the continuation's
    when the program returns. *)
Definition after {A B : Type} (R : outcome B -> state -> Prop)
    (f : A -> prog B) (o : outcome A) (s : state) : Prop :=
  match o with
  | Returned a => wp R (f a) s
  | Uncaught e => R (Uncaught e) s
  | Exited c => R (Exited c) s
  | Waiting => R Waiting s
  end.

Definition caught {A : Type} (R : outcome A -> state -> Prop)
    (h : value -> prog A) (o : outcome A) (s : state) : Prop :=
  match o with
  | Uncaught e => wp R (h e) s
  | _ => R o s
  end.

Lemma wp_mono {A : Type} (R R' : outcome A -> state -> Prop) (p : prog A) :
  (forall o s, R o s -> R' o s) -> forall s, wp R p s -> wp R' p s.
Proof.
  intros HR. induction p; simpl; intros s0 Hp; try (apply HR; exact Hp).
  - destruct Hp; split; auto.
  - destruct Hp as (? & ? & ? & Hk). repeat split; auto.
  - destruct Hp as (? & ? & Hk). repeat split; auto.
  - destruct Hp as (? & ? & Hk). repeat split; auto.
  - destruct Hp; split; auto.
  - auto.
  - destruct Hp; split; auto.
  - destruct Hp; split; auto.
Qed.

Lemma wp_bind {A B : Type} (R : outcome B -> state -> Prop) (f : A -> prog B) (p : prog A) :
  forall s, wp (after R f) p s -> wp R (p ≫= f) s.
Proof.
  unfold mbind, prog_bind.
  induction p; simpl; intros s0 Hp; try exact Hp.
  - destruct Hp; split; auto.
  - destruct Hp as (? & ? & ? & Hk). repeat split; auto.
  - destruct Hp as (? & ? & Hk). repeat split; auto.
  - destruct Hp as (? & ? & Hk). repeat split; auto.
  - destruct Hp; split; auto.
  - auto.
  - destruct Hp; split; auto.
  - destruct Hp; split; auto.
Qed.

Lemma wp_try_catch {A : Type} (R : outcome A -> state -> Prop) (h : value -> prog A) (p : prog A) :
  forall s, wp (caught R h) p s -> wp R (try_catch p h) s.
Proof.
  induction p; simpl; intros s0 Hp; try exact Hp.
  - destruct Hp; split; auto.
  - destruct Hp as (? & ? & ? & Hk). repeat split; auto.
  - destruct Hp as (? & ? & Hk). repeat split; auto.
  - destruct Hp as (? & ? & Hk). repeat split; auto.
  - destruct Hp; split; auto.
  - auto.
  - destruct Hp; split; auto.
  - destruct Hp; split; auto.
Qed.

(** inquirer hands on a line that passed, and shows only rejections on
    the way. *)
Lemma ask_events (check : string -> verdict) (lines : list string) :
  Forall (fun e => exists m, e = EInvalid m) (fst (ask check lines)).
Proof.
  induction lines as [|a rest IH]; simpl; [constructor|].
  destruct (check a); simpl; [constructor|].
  destruct (ask check rest) as [evs r]; simpl in *. constructor; eauto.
Qed.

Lemma ask_passes (check : string -> verdict) (lines : list string) a rest :
  snd (ask check lines) = Some (a, rest) ->
  check a = Pass /\ exists skipped, lines = skipped ++ a :: rest.
Proof.
  revert a rest. induction lines as [|b l IH]; simpl; intros a rest H; [discriminate|].
  destruct (check b) eqn:Hb; simpl in H.
  - injection H as <- <-. split; [exact Hb | exists []; reflexivity].
  - destruct (ask check l) as [evs r]; simpl in *.
    destruct (IH _ _ H) as [Ha [sk ->]]. split; [exact Ha | exists (b :: sk); reflexivity].
Qed.

(** Adequacy: what [wp] promises holds of every run. *)
Lemma wp_run {A : Type} (R : outcome A -> state -> Prop) (p : prog A) :
  forall w s, wp R p s ->
    Forall Q (trace (run p w s)) /\ R (result (run p w s)) (final (run p w s)).
Proof.
  induction p; simpl; intros w s0 Hp; try (split; [constructor | exact Hp]).
  - destruct Hp as [Hq Hk]. destruct (IHp w s0 Hk). split; [constructor|]; auto.
  - destruct Hp as (Hq & Hm & Hw & Hk).
    pose proof (ask_events (validate q) (typed w)) as Hev.
    pose proof (ask_passes (validate q) (typed w)) as Hpass.
    destruct (ask (validate q) (typed w)) as [evs [[a rest]|]]; simpl in *.
    + destruct (Hpass a rest eq_refl) as [Ha _].
      destruct (H a (set_typed w rest) s0 (Hk a Ha)) as [Ht Hr].
      split; [|exact Hr]. constructor; [exact Hq|].
      apply Forall_app; split; [|exact Ht].
      eapply Forall_impl; [exact Hev|]. intros e [m ->]. apply Hm.
    + split; [|exact Hw]. constructor; [exact Hq|].
      rewrite app_nil_r. eapply Forall_impl; [exact Hev|]. intros e [m ->]. apply Hm.
  - destruct Hp as (Hq & Hw & Hk). destruct (picked w) as [|a rest]; simpl.
    + split; [repeat constructor; exact Hq | exact Hw].
    + destruct (H a (set_picked w rest) s0 (Hk a)). split; [constructor|]; auto.
  - destruct Hp as (Hq & Hw & Hk). destruct (replies w) as [|r rest]; simpl.
    + split; [repeat constructor; exact Hq | exact Hw].
    + destruct (H r (set_replies w rest) s0 (Hk r)). split; [constructor|]; auto.
  - destruct Hp as [Hq Hk]. destruct (IHp w s0 Hk). split; [constructor|]; auto.
  - apply H, Hp.
  - destruct Hp as [Hq Hk]. destruct (IHp w _ Hk). split; [constructor|]; auto.
  - destruct Hp as [Hq Hk]. destruct (IHp w _ Hk). split; [constructor|]; auto.
Qed.

End Logic.

(** ** What a trace shows *)

Fixpoint calls (tr : list event) : list call :=
match tr with
| [] => []
| ECall c :: rest => c :: calls rest
| _ :: rest => calls rest
end.

Fixpoint handles (tr : list event) : list handle :=
match tr with
| [] => []
| ENew h :: rest => h :: handles rest
| _ :: rest => handles rest
end.

Definition is_write (e : event) : bool :=
match e with
| ESetSession _ | ESetSecrets _ => true
| _ => false
end.

Lemma calls_app (a b : list event) : calls (a ++ b) = calls a ++ calls b.
Proof.
induction a as [|e a IH]; [reflexivity|].
destruct e; simpl; rewrite IH; reflexivity.
Qed.

Lemma ask_calls (check : string -> verdict) (lines : list string) :
  calls (fst (ask check lines)) = [].
Proof.
induction lines as [|a rest IH]; [reflexivity|]. simpl.
destruct (check a); [reflexivity|].
destruct (ask check rest) as [evs r]. exact IH.
Qed.

Lemma ask_all_fail (check : string -> verdict) (lines : list string) :
  Forall (fun a => check a <> Pass) lines -> snd (ask check lines) = None.
Proof.
induction 1 as [|a rest Ha _ IH]; [reflexivity|]. simpl.
destruct (check a); [contradiction|].
destruct (ask check rest) as [evs r]. exact IH.
Qed.

Lemma ask_tail (check : string -> verdict) (lines : list string) a rest
    (bad : string -> Prop) :
  snd (ask check lines) = Some (a, rest) -> Forall bad (tl lines) -> Forall bad rest.
Proof.
intros H Hbad. destruct (ask_passes check lines a rest H) as [_ [skipped ->]].
destruct skipped as [|b sk]; simpl in Hbad; [exact Hbad|].
apply Forall_app in Hbad as [_ Hbad]. inversion Hbad; assumption.
Qed.

(** ** Frames

    A program is a frame when it never writes the session variables: run
    from any state, it emits no write and leaves the state as it found it.
    Frames compose, so a flow is checked statement by statement. *)

Definition reads_only (e : event) : Prop := is_write e = false.

Definition unchanged {A : Type} (s : state) (o : outcome A) (s' : state) : Prop := s' = s.

Definition frame {A : Type} (p : prog A) : Prop :=
forall s, wp reads_only (unchanged s) p s.

Section Frame.

Context {A B : Type}.

Lemma frame_ret (a : A) : frame (Ret a).
Proof. intros s; reflexivity. Qed.

Lemma frame_throw (e : value) : frame (@Throw A e).
Proof. intros s; reflexivity. Qed.

Lemma frame_exit (c : Z) : frame (@Exit A c).
Proof. intros s; reflexivity. Qed.

Lemma frame_console ch args (k : prog A) : frame k -> frame (Console ch args k).
Proof. intros H s; split; [reflexivity | apply H]. Qed.

Lemma frame_prompt q (k : string -> prog A) : (forall a, frame (k a)) -> frame (Prompt q k).
Proof. intros H s; repeat split; intros; apply H. Qed.

Lemma frame_menu (k : action -> prog A) : (forall a, frame (k a)) -> frame (Menu k).
Proof. intros H s; repeat split; intros; apply H. Qed.

Lemma frame_await c (k : completion value -> prog A) :
  (forall r, frame (k r)) -> frame (Await c k).
Proof. intros H s; repeat split; intros; apply H. Qed.

Lemma frame_new h (k : prog A) : frame k -> frame (New h k).
Proof. intros H s; split; [reflexivity | apply H]. Qed.

Lemma frame_read (k : state -> prog A) : (forall s, frame (k s)) -> frame (Read k).
Proof. intros H s; apply H. Qed.

Lemma frame_bind (p : prog A) (f : A -> prog B) :
  frame p -> (forall a, frame (f a)) -> frame (p ≫= f).
Proof.
intros Hp Hf s. apply wp_bind. eapply wp_mono; [|apply Hp].
intros [a|e|c|] s' ->; simpl; try reflexivity. apply Hf.
Qed.

Lemma frame_try_catch (p : prog A) (h : value -> prog A) :
  frame p -> (forall e, frame (h e)) -> frame (try_catch p h).
Proof.
intros Hp Hh s. apply wp_try_catch. eapply wp_mono; [|apply Hp].
intros [a|e|c|] s' ->; simpl; try reflexivity. apply Hh.
Qed.

Lemma frame_eval (c : completion A) : frame (eval c).
Proof. destruct c; [apply frame_ret | apply frame_throw]. Qed.

(** A frame leaves every run's state alone. *)
Lemma frame_run (p : prog A) (w : world) (s : state) :
  frame p -> final (run p w s) = s /\ Forall reads_only (trace (run p w s)).
Proof.
intros H. destruct (wp_run reads_only (unchanged s) p w s (H s)) as [Ht Hs].
split; [exact Hs | exact Ht].
Qed.

End Frame.

Lemma frame_forEach {A : Type} (f : A -> prog ()) (l : list A) :
  (forall x, frame (f x)) -> frame (forEach f l).
Proof.
intros Hf. induction l as [|x l IH]; simpl; [apply frame_ret|].
apply frame_bind; [apply Hf | intros _; exact IH].
Qed.

Lemma frame_forEachIndexed {A : Type} (f : nat -> A -> prog ()) (l : list A) :
  (forall i x, frame (f i x)) -> forall i, frame (forEachIndexed f i l).
Proof.
intros Hf. induction l as [|x l IH]; simpl; intros i; [apply frame_ret|].
apply frame_bind; [apply Hf | intros _; apply IH].
Qed.

Create HintDb flows.

#[export] Hint Unfold console prompt menu read construct await when get
  or_else debugLog simpleLog accountAddressOf signingContext
  newPublicKey SystemProgram_transfer rethrow printToken tokenBalance printTokens
  printInstruction printKey initAuthThenOtp retryLogin register messageIncludes : flows.

Ltac frame_step :=
  lazymatch goal with
  | |- forall _, _ => intro
  | |- frame (_ ≫= _) => apply frame_bind
  | |- frame (try_catch _ _) => apply frame_try_catch
  | |- frame (Ret _) => apply frame_ret
  | |- frame (Throw _) => apply frame_throw
  | |- frame (Exit _) => apply frame_exit
  | |- frame (Console _ _ _) => apply frame_console
  | |- frame (Prompt _ _) => apply frame_prompt
  | |- frame (Menu _) => apply frame_menu
  | |- frame (Await _ _) => apply frame_await
  | |- frame (New _ _) => apply frame_new
  | |- frame (Read _) => apply frame_read
  | |- frame (eval _) => apply frame_eval
  | |- frame (forEach _ _) => apply frame_forEach
  | |- frame (forEachIndexed _ _ _) => apply frame_forEachIndexed
  | |- frame (if ?b then _ else _) => destruct b
  | |- frame (match ?x with _ => _ end) => destruct x
  | |- frame _ => progress (autounfold with flows; cbv zeta)
  end.

Lemma findUSDC_frame (tokens : list value) : frame (findUSDC tokens).
Proof. induction tokens; simpl; repeat frame_step; assumption. Qed.

Lemma checkBalance_frame (P : platform) : frame (checkBalance P).
Proof. unfold checkBalance. repeat first [apply findUSDC_frame | frame_step]. Qed.

Lemma transferTokens_frame (P : platform) (cfg : config) : frame (transferTokens P cfg).
Proof. unfold transferTokens. repeat frame_step. Qed.

Lemma transferSOLArbitrary_frame (P : platform) (cfg : config) :
  frame (transferSOLArbitrary P cfg).
Proof. unfold transferSOLArbitrary. repeat frame_step. Qed.

Lemma initializeGridClient_frame (P : platform) (cfg : config) :
  frame (initializeGridClient P cfg).
Proof. unfold initializeGridClient. repeat frame_step. Qed.

Lemma messageIncludes_frame (what : string) (m : value) (needles : list string) :
  frame (messageIncludes what m needles).
Proof.
unfold messageIncludes. destruct (Js.truthy m); [|apply frame_ret].
induction needles as [|n r IH]; [apply frame_ret|].
apply frame_bind; [apply frame_eval|]. intros [|]; [apply frame_ret | exact IH].
Qed.

Lemma loginOrRegisterWith_frame (P : platform) (cfg : config)
    (otpStep : string -> bool -> prog ()) :
  (forall email isNewUser, frame (otpStep email isNewUser)) ->
  frame (loginOrRegisterWith P cfg otpStep).
Proof.
intros Hotp. unfold loginOrRegisterWith, register, retryLogin, initAuthThenOtp.
repeat first [apply Hotp | apply messageIncludes_frame | frame_step].
Qed.

(** ** Strings: trimming does not change what [parseFloat] reads

    The prompt validates the trimmed line and the flow converts the line as
    typed; both read the same number. *)

(** Characters that are part of a numeric literal are not white space. *)
Definition solid (c : ascii) : Prop := Str.is_space c = false.

Lemma trimEnd_cons (c : ascii) (r : string) :
  solid c -> Str.trimEnd (String c r) = String c (Str.trimEnd r).
Proof. unfold solid. simpl. intros ->. reflexivity. Qed.

Lemma trimEnd_head (c : ascii) (r : string) :
  Str.trimEnd (String c r) = EmptyString \/
  Str.trimEnd (String c r) = String c (Str.trimEnd r).
Proof. simpl. destruct (Str.is_space c && Str.is_empty (Str.trimEnd r)); auto. Qed.

Lemma digit_solid (c : ascii) (d : N) : Lex.digit c = Some d -> solid c.
Proof.
  unfold Lex.digit, solid, Str.is_space. set (n := Str.code c).
  destruct ((48 <=? n)%N && (n <=? 57)%N) eqn:E; [|discriminate]. intros _.
  apply andb_true_iff in E as [E1 E2]. apply N.leb_le in E1, E2.
  repeat (apply orb_false_iff; split); try apply andb_false_iff;
    rewrite ?N.leb_gt, ?N.eqb_neq; lia.
Qed.

Lemma is_char_solid (c d : ascii) (r : string) :
  Lex.is_char c (String d r) = true -> solid c -> solid d.
Proof. simpl. intros H%Ascii.eqb_eq. subst. auto. Qed.

Lemma is_char_trimEnd (c : ascii) (s : string) :
  solid c -> Lex.is_char c (Str.trimEnd s) = Lex.is_char c s.
Proof.
  intros Hc. destruct s as [|d r]; [reflexivity|].
  destruct (trimEnd_head d r) as [E|E]; rewrite E; [|reflexivity].
  simpl. destruct (Ascii.eqb d c) eqn:Hd; [|reflexivity].
  apply Ascii.eqb_eq in Hd. subst d. rewrite trimEnd_cons in E by exact Hc. discriminate.
Qed.

Lemma drop1_trimEnd (c : ascii) (s : string) :
  solid c -> Lex.is_char c s = true ->
  Str.drop 1 (Str.trimEnd s) = Str.trimEnd (Str.drop 1 s).
Proof.
  intros Hc H. destruct s as [|d r]; [discriminate|].
  rewrite trimEnd_cons by (eapply is_char_solid; eauto). reflexivity.
Qed.

Lemma digits_trimEnd (s : string) : forall acc cnt,
  Lex.digits (Str.trimEnd s) acc cnt =
  let '(v, n, r) := Lex.digits s acc cnt in (v, n, Str.trimEnd r).
Proof.
  induction s as [|c r IH]; intros acc cnt; [reflexivity|].
  destruct (Lex.digit c) as [d|] eqn:Hd.
  - rewrite trimEnd_cons by (eapply digit_solid; eauto).
    cbn [Lex.digits]. rewrite Hd. apply IH.
  - cbn [Lex.digits]. rewrite Hd.
    destruct (trimEnd_head c r) as [E|E]; rewrite E; cbn [Lex.digits]; rewrite ?Hd; reflexivity.
Qed.

Lemma plus_solid : solid "+". Proof. reflexivity. Qed.
Lemma minus_solid : solid "-". Proof. reflexivity. Qed.
Lemma point_solid : solid ".". Proof. reflexivity. Qed.
Lemma e_solid : solid "e". Proof. reflexivity. Qed.
Lemma E_solid : solid "E". Proof. reflexivity. Qed.

Lemma sign_trimEnd (s : string) :
  Lex.sign (Str.trimEnd s) = let '(neg, r) := Lex.sign s in (neg, Str.trimEnd r).
Proof.
  unfold Lex.sign. rewrite !is_char_trimEnd by reflexivity.
  destruct (Lex.is_char "+" s) eqn:Hp.
  - rewrite (drop1_trimEnd "+") by auto using plus_solid. reflexivity.
  - destruct (Lex.is_char "-" s) eqn:Hm; [|reflexivity].
    rewrite (drop1_trimEnd "-") by auto using minus_solid. reflexivity.
Qed.

Lemma prefix_trimEnd (p s : string) :
  (forall c, In c (list_ascii_of_string p) -> solid c) ->
  String.prefix p (Str.trimEnd s) = String.prefix p s.
Proof.
  revert s. induction p as [|a p IH]; intros s Hp; [destruct s, (Str.trimEnd _); reflexivity|].
  destruct s as [|c r]; [reflexivity|].
  assert (solid a) as Ha by (apply Hp; left; reflexivity).
  assert (forall c, In c (list_ascii_of_string p) -> solid c) as Hp' by (intros; apply Hp; right; auto).
  destruct (trimEnd_head c r) as [E|E]; rewrite E; cbn [String.prefix].
  - destruct (ascii_dec a c) as [->|]; [|reflexivity].
    rewrite trimEnd_cons in E by exact Ha. discriminate.
  - destruct (ascii_dec a c); [apply IH, Hp' | reflexivity].
Qed.

Lemma exponent_trimEnd (s : string) :
  fst (Lex.exponent (Str.trimEnd s)) = fst (Lex.exponent s).
Proof.
  unfold Lex.exponent. rewrite !is_char_trimEnd by reflexivity.
  destruct (Lex.is_char "e" s || Lex.is_char "E" s) eqn:He; [|reflexivity].
  assert (Str.drop 1 (Str.trimEnd s) = Str.trimEnd (Str.drop 1 s)) as ->.
  { apply orb_true_iff in He as [He|He];
      [apply (drop1_trimEnd "e") | apply (drop1_trimEnd "E")]; auto using e_solid, E_solid. }
  rewrite sign_trimEnd. destruct (Lex.sign (Str.drop 1 s)) as [neg r1].
  rewrite digits_trimEnd. destruct (Lex.digits r1 0%N 0%nat) as [[v n] r2].
  destruct n; reflexivity.
Qed.

Definition scanned (s : string) : option Lex.literal :=
  match Lex.scan s with Some (l, _) => Some l | None => None end.

Lemma scan_trimEnd (s : string) : scanned (Str.trimEnd s) = scanned s.
Proof.
  unfold scanned, Lex.scan. rewrite sign_trimEnd.
  destruct (Lex.sign s) as [neg s1].
  rewrite prefix_trimEnd by (cbn; intros c Hc; repeat destruct Hc as [<-|Hc]; try reflexivity; destruct Hc).
  destruct (String.prefix "Infinity" s1); [reflexivity|].
  rewrite digits_trimEnd. destruct (Lex.digits s1 0%N 0%nat) as [[ip ni] s2].
  rewrite is_char_trimEnd by reflexivity.
  destruct (Lex.is_char "." s2) eqn:Hpoint.
  - rewrite (drop1_trimEnd ".") by auto using point_solid.
    rewrite digits_trimEnd. destruct (Lex.digits (Str.drop 1 s2) ip 0%nat) as [[m nf] s4].
    pose proof (exponent_trimEnd s4) as He.
    destruct (Lex.exponent (Str.trimEnd s4)) as [ex s5], (Lex.exponent s4) as [ex' s5'].
    simpl in He. subst ex'. destruct ni, nf; reflexivity.
  - pose proof (exponent_trimEnd s2) as He.
    destruct (Lex.exponent (Str.trimEnd s2)) as [ex s5], (Lex.exponent s2) as [ex' s5'].
    simpl in He. subst ex'. destruct ni; reflexivity.
Qed.

Lemma trimStart_head (s : string) :
  Str.trimStart s = EmptyString \/
  exists c r, Str.trimStart s = String c r /\ solid c.
Proof.
  induction s as [|c r IH]; [left; reflexivity|]. simpl.
  destruct (Str.is_space c) eqn:Hc; [exact IH|]. right. exists c, r. auto.
Qed.

Lemma parseFloat_scanned (s : string) :
  parseFloat s = match scanned (Str.trimStart s) with Some l => Lex.value l | None => Num.NaN end.
Proof. unfold parseFloat, scanned. destruct (Lex.scan _) as [[l r]|]; reflexivity. Qed.

Theorem parseFloat_trim (s : string) : parseFloat (Str.trim s) = parseFloat s.
Proof.
  rewrite !parseFloat_scanned. unfold Str.trim.
  destruct (trimStart_head s) as [E | (c & r & E & Hc)]; rewrite E; [reflexivity|].
  rewrite trimEnd_cons by exact Hc. cbn [Str.trimStart]. rewrite Hc.
  rewrite <- (trimEnd_cons c r Hc). apply f_equal with (f := fun o => match o with Some l => Lex.value l | None => Num.NaN end).
  apply scan_trimEnd.
Qed.

(** ** Numbers: rounding keeps 53 bits, and [Math.floor] is exact *)

(** The number of binary digits of a mantissa. *)
Lemma digits2_size (p : positive) : digits2_pos p = Pos.size p.
Proof. induction p; simpl; congruence. Qed.

Lemma Zdigits2_log2 (m : Z) : 0 < m -> Zdigits2 m = Z.log2 m + 1.
Proof.
  destruct m as [|p|p]; try lia. intros _. simpl. rewrite digits2_size.
  destruct p; simpl; lia.
Qed.

Lemma Zdigits2_nonneg (m : Z) : 0 <= Zdigits2 m.
Proof. destruct m; simpl; lia. Qed.

Lemma Zdigits2_bound (m : Z) (d : Z) : 0 <= m -> 0 <= d -> (Zdigits2 m <= d <-> m < 2 ^ d).
Proof.
  intros Hm Hd. destruct (Z.eq_dec m 0) as [->|Hne].
  - simpl. split; intros; [apply Z.pow_pos_nonneg|]; lia.
  - rewrite Zdigits2_log2 by lia. split; intros H.
    + apply Z.log2_lt_pow2; lia.
    + apply Z.log2_lt_pow2 in H; lia.
Qed.

(** Shifting a mantissa right. *)
Lemma shr_1_m (mrs : shr_record) :
  0 <= shr_m mrs -> shr_m (shr_1 mrs) = shr_m mrs / 2.
Proof.
  destruct mrs as [m r s]; simpl. intros Hm. rewrite <- Z.div2_div.
  destruct m as [|p|p]; try lia; [reflexivity|]. destruct p; reflexivity.
Qed.

Lemma iter_shr_1_m (p : positive) : forall mrs,
  0 <= shr_m mrs -> shr_m (SpecFloat.iter_pos shr_1 p mrs) = shr_m mrs / 2 ^ Zpos p.
Proof.
  assert (forall q m, 0 <= m -> 0 <= m / 2 ^ Zpos q) as Hpow
    by (intros; apply Z.div_pos; [lia | apply Z.pow_pos_nonneg; lia]).
  assert (forall q, 0 < 2 ^ Zpos q) as Hpos by (intros; apply Z.pow_pos_nonneg; lia).
  induction p as [p IH | p IH |]; intros mrs Hm; simpl.
  - assert (0 <= shr_m (shr_1 mrs)) as H1
      by (rewrite shr_1_m by exact Hm; apply Z.div_pos; lia).
    assert (0 <= shr_m (SpecFloat.iter_pos shr_1 p (shr_1 mrs))) as H2
      by (rewrite IH by exact H1; apply Hpow, H1).
    rewrite (IH _ H2), (IH _ H1), shr_1_m by exact Hm.
    rewrite !Z.div_div by (auto; lia).
    f_equal. rewrite Pos2Z.inj_xI, <- Z.pow_add_r, <- Z.pow_succ_r by lia. f_equal. lia.
  - assert (0 <= shr_m (SpecFloat.iter_pos shr_1 p mrs)) as H2
      by (rewrite IH by exact Hm; apply Hpow, Hm).
    rewrite (IH _ H2), (IH _ Hm).
    rewrite !Z.div_div by (auto; lia).
    f_equal. rewrite Pos2Z.inj_xO, <- Z.pow_add_r by lia. f_equal. lia.
  - rewrite shr_1_m by exact Hm. reflexivity.
Qed.

Lemma fexp_ge (d : Z) : d - 53 <= fexp Num.prec Num.emax d.
Proof. unfold fexp, Num.prec. lia. Qed.

Lemma record_m (m : Z) (l : location) : shr_m (shr_record_of_loc m l) = m.
Proof. destruct l as [|[]]; reflexivity. Qed.

(** After [shr_fexp] a mantissa has at most 53 bits. *)
Lemma shr_fexp_bound (m e : Z) (l : location) :
  0 <= m ->
  0 <= shr_m (fst (shr_fexp Num.prec Num.emax m e l)) < 2 ^ 53.
Proof.
  intros Hm. unfold shr_fexp, shr.
  pose proof (fexp_ge (Zdigits2 m + e)) as Hf.
  pose proof (Zdigits2_nonneg m) as Hd.
  assert (m < 2 ^ Zdigits2 m) as Hlt by (apply Zdigits2_bound; lia).
  destruct (fexp Num.prec Num.emax (Zdigits2 m + e) - e) as [|n|n] eqn:Hn; simpl;
    rewrite ?iter_shr_1_m, record_m by (rewrite record_m; exact Hm).
  - split; [exact Hm|]. apply Zdigits2_bound; lia.
  - split; [apply Z.div_pos; [lia | apply Z.pow_pos_nonneg; lia]|].
    apply Z.div_lt_upper_bound; [apply Z.pow_pos_nonneg; lia|].
    rewrite <- Z.pow_add_r by lia.
    eapply Z.lt_le_trans; [exact Hlt|]. apply Z.pow_le_mono_r; lia.
  - split; [exact Hm|]. apply Zdigits2_bound; lia.
Qed.

Lemma round_nearest_even_nonneg (m : Z) (l : location) :
  0 <= m -> 0 <= round_nearest_even m l.
Proof. destruct l as [|[]]; simpl; intros; try lia. destruct (Z.even m); lia. Qed.

Definition fits (x : float) : Prop :=
  match x with
  | S754_finite _ m _ => Zpos m < 2 ^ 53
  | _ => True
  end.

Lemma binary_round_aux_fits (sx : bool) (mx ex : Z) (lx : location) :
  0 <= mx -> fits (binary_round_aux Num.prec Num.emax sx mx ex lx).
Proof.
  intros Hm. unfold binary_round_aux.
  pose proof (shr_fexp_bound mx ex lx Hm) as H1.
  destruct (shr_fexp Num.prec Num.emax mx ex lx) as [mrs' e']. simpl in H1.
  set (m2 := round_nearest_even (shr_m mrs') (loc_of_shr_record mrs')).
  pose proof (shr_fexp_bound m2 e' loc_Exact
                (round_nearest_even_nonneg _ _ (proj1 H1))) as H2.
  destruct (shr_fexp Num.prec Num.emax m2 e' loc_Exact) as [mrs'' e'']. simpl in H2.
  destruct (shr_m mrs'') as [|m|m]; simpl; try exact I.
  destruct (e'' <=? Num.emax - Num.prec); simpl; [lia | exact I].
Qed.

Lemma mul_fits (x y : float) : fits (Num.mul x y).
Proof.
  destruct x as [sx|sx| |sx mx ex], y as [sy|sy| |sy my ey]; try exact I.
  apply binary_round_aux_fits. lia.
Qed.

(** An integer below 2^53 is represented exactly. *)
Lemma iter_xO (k p : positive) : Zpos (Pos.iter xO p k) = Zpos p * 2 ^ Zpos k.
Proof.
  induction k as [|k IH] using Pos.peano_ind.
  - simpl. lia.
  - rewrite Pos.iter_succ, Pos2Z.inj_xO, IH, Pos2Z.inj_succ, Z.pow_succ_r by lia. lia.
Qed.

Lemma shr_fexp_exact (m : positive) (e : Z) :
  Zdigits2 (Zpos m) = 53 -> -1074 <= e ->
  shr_fexp Num.prec Num.emax (Zpos m) e loc_Exact =
  ({| shr_m := Zpos m; shr_r := false; shr_s := false |}, e).
Proof.
  intros Hd He. unfold shr_fexp. rewrite Hd.
  replace (fexp Num.prec Num.emax (53 + e) - e) with 0
    by (unfold fexp, SpecFloat.emin, Num.prec, Num.emax; lia).
  reflexivity.
Qed.

Lemma binary_round_aux_exact (sg : bool) (m : positive) (e : Z) :
  Zdigits2 (Zpos m) = 53 -> -1074 <= e <= 971 ->
  binary_round_aux Num.prec Num.emax sg (Zpos m) e loc_Exact = S754_finite sg m e.
Proof.
  intros Hd He. unfold binary_round_aux. rewrite shr_fexp_exact by (auto; lia).
  cbn [shr_m loc_of_shr_record round_nearest_even]. rewrite shr_fexp_exact by (auto; lia).
  cbn [shr_m]. replace (e <=? Num.emax - Num.prec) with true; [reflexivity|].
  symmetry. apply Z.leb_le. unfold Num.emax, Num.prec. lia.
Qed.

Lemma to_Z_shifted (sg : bool) (p k : positive) :
  Num.to_Z (S754_finite sg (Pos.iter xO p k) (- Zpos k)) = Some (Num.signed sg p).
Proof.
  unfold Num.to_Z. replace (0 <=? - Zpos k) with false by (symmetry; apply Z.leb_gt; lia).
  rewrite Z.opp_involutive, iter_xO.
  assert (0 < 2 ^ Zpos k) by (apply Z.pow_pos_nonneg; lia).
  rewrite Z.mod_mul, Z.eqb_refl by lia. f_equal.
  unfold Num.signed. rewrite iter_xO.
  destruct sg; simpl; [rewrite <- Z.mul_opp_l|]; apply Z.div_mul; lia.
Qed.

Lemma binary_round_exact (sg : bool) (p : positive) :
  Zpos p < 2 ^ 53 ->
  Num.to_Z (binary_round Num.prec Num.emax sg p 0) = Some (Num.signed sg p).
Proof.
  intros Hp.
  assert (1 <= Zdigits2 (Zpos p) <= 53) as Hd.
  { split; [rewrite Zdigits2_log2 by lia; pose proof (Z.log2_nonneg (Zpos p)); lia|].
    apply Zdigits2_bound; lia. }
  unfold binary_round, shl_align. change (Zpos (digits2_pos p)) with (Zdigits2 (Zpos p)).
  replace (fexp Num.prec Num.emax (Zdigits2 (Zpos p) + 0)) with (Zdigits2 (Zpos p) - 53)
    by (unfold fexp, SpecFloat.emin, Num.prec, Num.emax; lia).
  destruct (Zdigits2 (Zpos p) - 53 - 0) as [|k|k] eqn:Hk; try lia.
  - rewrite binary_round_aux_exact by lia.
    unfold Num.to_Z. simpl. f_equal. lia.
  - assert (Zdigits2 (Zpos (Pos.iter xO p k)) = 53) as Hd'.
    { rewrite iter_xO, Zdigits2_log2 by (apply Z.mul_pos_pos; [lia | apply Z.pow_pos_nonneg; lia]).
      rewrite Z.log2_mul_pow2 by lia. rewrite Zdigits2_log2 in Hk by lia. lia. }
    replace (Zdigits2 (Zpos p) - 53) with (- Zpos k) by lia.
    rewrite binary_round_aux_exact by (auto; lia).
    apply to_Z_shifted.
Qed.

(** [Math.floor] is the integer part: the integer its result denotes is the
    greatest integer below the argument. *)
Theorem floor_exact (x : float) :
  fits x -> Num.to_Z (Num.Math_floor x) = Num.floorZ x.
Proof.
  destruct x as [sg|sg| |sg m e]; try reflexivity. intros Hm. simpl in Hm.
  unfold Num.Math_floor, Num.floorZ.
  destruct (0 <=? e) eqn:He; [unfold Num.to_Z; rewrite He; reflexivity|].
  apply Z.leb_gt in He.
  assert (0 < 2 ^ (- e)) as Hpow by (apply Z.pow_pos_nonneg; lia).
  unfold binary_normalize.
  destruct (Num.signed sg m / 2 ^ (- e)) as [|q|q] eqn:Hq.
  - reflexivity.
  - assert (sg = false) as ->.
    { destruct sg; [|reflexivity]. exfalso.
      assert (Num.signed true m / 2 ^ (- e) < 0); [|lia].
      apply Z.div_lt_upper_bound; simpl; lia. }
    rewrite binary_round_exact; [reflexivity|].
    rewrite <- Hq. simpl. eapply Z.le_lt_trans; [|exact Hm].
    apply Z.div_le_upper_bound; nia.
  - assert (sg = true) as ->.
    { destruct sg; [reflexivity|]. exfalso.
      assert (0 <= Num.signed false m / 2 ^ (- e)); [|lia].
      apply Z.div_pos; simpl; lia. }
    rewrite binary_round_exact; [reflexivity|].
    assert (- Zpos m <= Num.signed true m / 2 ^ (- e)); [|lia].
    apply Z.div_le_lower_bound; simpl; nia.
Qed.


(** ** Shared facts about the flows *)

(** The address a flow acts for:
    [userSession.smart_account_address || userSession.address]. *)
Definition account (s : state) : value :=
Js.or (Js.member (userSession s) "smart_account_address")
      (Js.member (userSession s) "address").

(** Both session variables are set. *)
Definition authenticated (s : state) : Prop :=
Js.truthy (userSession s) = true /\ Js.truthy (sessionSecrets s) = true.

(** A number that is finite and greater than zero. *)
Definition positive_finite (x : float) : Prop :=
exists m e, x = S754_finite false m e.


(** The transaction of lines 509-539: one transfer of [units] lamports from
    the account to the recipient, the account paying the fee. *)
Definition transferOf (s : state) (recipient : string) (units : float)
    (blockhash : value) : Transaction :=
let payer := {| key_source := account s |} in
{| recentBlockhash := blockhash;
   feePayer := payer;
   instructions := [{| fromPubkey := payer;
                       toPubkey := {| key_source := VText recipient |};
                       lamports := units |}] |}.

Lemma truthy_not_nullish (v : value) : Js.truthy v = true -> Js.nullish v = false.
Proof. destruct v; simpl; congruence. Qed.

Lemma get_member (v : value) (k : string) :
  Js.nullish v = false -> get v k = Ret (Js.member v k).
Proof. intros H. unfold get, Js.get. rewrite H. reflexivity. Qed.

Lemma or_else_get (v : value) (a b : string) :
  Js.nullish v = false ->
  or_else (get v a) (get v b) = Ret (Js.or (Js.member v a) (Js.member v b)).
Proof.
intros H. unfold or_else. rewrite !get_member by exact H. simpl. unfold Js.or.
destruct (Js.truthy (Js.member v a)); reflexivity.
Qed.

Lemma rejected_amount (amount : string) (token : tokenType) :
  ~ positive_finite (parseFloat amount) ->
  valid (validateAmount amount token) = false.
Proof.
intros H. unfold validateAmount.
destruct (parseFloat amount) as [sg | sg | | sg m e]; try reflexivity.
- destruct sg; [reflexivity|]. destruct token; reflexivity.
- destruct sg; [reflexivity|]. exfalso. apply H. exists m, e. reflexivity.
Qed.

Lemma rejected_input (token : tokenType) (input : string) :
  ~ positive_finite (parseFloat input) -> validateAmountInput token input <> Pass.
Proof.
intros H. unfold validateAmountInput.
destruct (Str.is_empty (Str.trim input)); [discriminate|].
rewrite rejected_amount by (rewrite parseFloat_trim; exact H). discriminate.
Qed.

(** What [validateAmount] accepts for SOL. *)
Lemma accepted_sol (amount : string) :
  valid (validateAmount amount SOL) = true <->
  positive_finite (parseFloat amount) /\
  Num.gt (parseFloat amount) (Num.lit 10000) = false.
Proof.
unfold validateAmount.
destruct (parseFloat amount) as [sg | sg | | sg m e]; simpl.
- split; [discriminate | intros [(m & e & H) _]; discriminate].
- split; [destruct sg; discriminate | intros [(m & e & H) _]; discriminate].
- split; [discriminate | intros [(m & e & H) _]; discriminate].
- destruct sg.
  + split; [discriminate | intros [(m' & e' & H) _]; discriminate].
  + change (Num.le (S754_finite false m e) (Num.lit 0)) with false. cbv iota.
    destruct (Num.gt (S754_finite false m e) (Num.lit 10000)); simpl.
    * split; [discriminate | intros [_ H]; discriminate].
    * split; [intros _; split; [exists m, e; reflexivity | reflexivity] | reflexivity].
Qed.

(** Symbolic execution of a run: reduce, use what is known, split on the
    session fields the debug output tests. *)
Ltac run_step :=
  first
    [ progress cbn
    | match goal with
      | H : ?x = _ |- context [match ?x with _ => _ end] => rewrite H
      | H : ?x = _ |- context [if ?x then _ else _] => rewrite H
      | H : Js.truthy ?v = _ |- context [Js.truthy ?v] => rewrite H
      | |- context [if Js.truthy ?v then _ else _] => destruct (Js.truthy v) eqn:?
      | |- _ = _ => discriminate
      end ].


(** Likewise the SOL flow fetches a block hash and then submits the
    serialised transfer of the converted amount. *)
Lemma sol_submission (P : platform) (cfg : config) (s : state)
    (recipient amount : string) (lines : list string) (picks : list action)
    (latest : value) (outcomes : list (completion value)) (base64 : string) :
  authenticated s ->
  Js.truthy (account s) = true ->
  validateRecipient P recipient = Pass ->
  validateAmountInput SOL amount = Pass ->
  PublicKey_rejects P (account s) = None ->
  PublicKey_rejects P (VText recipient) = None ->
  transfer_rejects P (lamportsOf amount) = None ->
  Js.nullish latest = false ->
  serialize_base64 P (transferOf s recipient (lamportsOf amount)
                                 (Js.member latest "blockhash")) = Normal base64 ->
  firstn 2 (calls (trace (run (transferSOLArbitrary P cfg)
                              {| typed := recipient :: amount :: lines;
                                 picked := picks;
                                 replies := Normal latest :: outcomes |} s))) =
  [getLatestBlockhash "finalized";
   prepareArbitraryTransaction (account s) {| transaction := base64 |}].
Proof.
intros [Hsession Hsecrets] Haccount Hrecipient Hamount Hfrom Hto Htransfer Hlatest Hserial.
pose proof (truthy_not_nullish _ Hsession) as Hnn.
unfold transferOf in Hserial.
unfold transferSOLArbitrary, accountAddressOf, or_else, get, Js.get, Js.destructure,
  newPublicKey, SystemProgram_transfer, await, eval, account in *.
unfold simpleLog, debugLog, when.
unfold Js.or in Haccount, Hfrom, Hserial |- *.
cbn. rewrite Hsession, Hsecrets.
destruct (DEBUG_MODE cfg).
all: repeat run_step.
all: try congruence.
all: destruct outcomes; reflexivity.
Qed.

(** * The claims *)

(** ** C1: conversion to base units *)



(** The product is the binary64 one: 0.000249 * 1000000 is
    248.99999999999997, so the flow sends 248 base units. *)
Example rounded_product :
  Num.to_Z (baseUnits "0.000249") = Some 248 /\
  Num.to_Z (baseUnits "12.5") = Some 12500000 /\
  Num.to_Z (lamportsOf "0.001") = Some 1000000.
Proof. vm_compute. repeat split. Qed.

(** ** C2: the flows ask for a login *)

Definition denied (w : world) (s : state) : execution () :=
{| trace := [EConsole Log [VText "Please log in first."]];
   result := Returned ();
   final := s;
   remaining := w |}.

(** C2. With no session stored ([userSession] is [null]) the balance flow,
    the USDC flow and the SOL flow print 'Please log in first.' and return:
    that line is the whole trace, so no call is issued. *)
Theorem login_required (P : platform) (cfg : config) (w : world) (s : state) :
  userSession s = VNull ->
  run (checkBalance P) w s = denied w s /\
  run (transferTokens P cfg) w s = denied w s /\
  run (transferSOLArbitrary P cfg) w s = denied w s /\
  calls (trace (denied w s)) = [].
Proof.
destruct s as [session secrets]; simpl; intros ->.
repeat split; reflexivity.
Qed.

Lemma login_required_witness :
  let w := Sample.script [Sample.ADDR2; "12.5"] [] in
  run (checkBalance Sample.node) w initial = denied w initial /\
  run (transferTokens Sample.node Sample.quiet) w initial = denied w initial /\
  run (transferSOLArbitrary Sample.node Sample.quiet) w initial = denied w initial /\
  calls (trace (denied w initial)) = [].
Proof. apply login_required. reflexivity. Defined.

(** ** C3: a failed OTP verification *)

(** The OTP step fails when the secrets cannot be generated, when the
    completion call rejects, or when it returns nothing. *)
Inductive otp_failure : list (completion value) -> Prop :=
| secrets_rejected e rest : otp_failure (Throws e :: rest)
| completion_rejected secrets e rest : otp_failure (Normal secrets :: Throws e :: rest)
| no_response secrets r rest :
    Js.truthy r = false -> otp_failure (Normal secrets :: Normal r :: rest).

Definition secrets_after (outcomes : list (completion value)) (s : state) : value :=
match outcomes with
| Normal secrets :: _ => secrets
| _ => sessionSecrets s
end.

Definition reported (tr : list event) : Prop :=
exists before error,
  tr = before ++ [EConsole Error [VText "OTP verification failed:"; error];
                  EConsole Error [VText "Error details:"; error]].

(** C3, as stated, fails: a wrong code leaves the freshly generated secrets
    in [sessionSecrets]. *)
Lemma failed_otp_keeps_new_secrets :
  let w := Sample.script ["123456"] [Normal Sample.secrets; Throws (Js.Error "Invalid code")] in
  let x := run (verifyOtp Sample.node Sample.quiet "a@example.com" false) w initial in
  otp_failure (replies w) /\
  sessionSecrets (final x) = Sample.secrets /\
  final x <> initial.
Proof. split; [constructor|]. split; [reflexivity | discriminate]. Qed.

(** C3, amended. Every failed OTP verification reports the error and returns
    with [userSession] as it was, so an unauthenticated program stays
    unauthenticated; [sessionSecrets] is as it was when the secrets could not
    be generated and holds the new secrets otherwise. *)
Theorem failed_otp (P : platform) (cfg : config) (email : string) (isNewUser : bool)
    (otp : string) (lines : list string) (picks : list action)
    (outcomes : list (completion value)) (s : state) :
  otp_failure outcomes ->
  let x := run (verifyOtp P cfg email isNewUser)
               {| typed := otp :: lines; picked := picks; replies := outcomes |} s in
  result x = Returned () /\
  reported (trace x) /\
  userSession (final x) = userSession s /\
  sessionSecrets (final x) = secrets_after outcomes s.
Proof.
intros Hfail x. subst x. unfold reported.
destruct Hfail as [e rest | secrets e rest | secrets r rest Hr].
- simpl. repeat split; eauto.
  exists [EAsk "Enter the OTP from your email:"; ECall generateSessionSecrets], e.
  reflexivity.
- destruct isNewUser; simpl; (split; [reflexivity|]); (split; [|split; reflexivity]);
    eexists [_; _; _; _], e; reflexivity.
- destruct isNewUser; simpl; rewrite Hr; simpl;
    (split; [reflexivity|]); (split; [|split; reflexivity]);
    eexists [_; _; _; _; _], _; reflexivity.
Qed.

Lemma failed_otp_witness :
  let x := run (verifyOtp Sample.node Sample.quiet "a@example.com" false)
               {| typed := ["000000"]; picked := [];
                  replies := [Normal Sample.secrets; Throws (Js.Error "Invalid code")] |}
               initial in
  result x = Returned () /\
  reported (trace x) /\
  userSession (final x) = VNull /\
  sessionSecrets (final x) = Sample.secrets.
Proof.
apply (failed_otp Sample.node Sample.quiet "a@example.com" false "000000" [] []
         [Normal Sample.secrets; Throws (Js.Error "Invalid code")] initial).
constructor.
Defined.

(** ** C4: amounts that are not positive finite numbers *)

(** C4. An amount string that does not parse as a positive finite number is
    rejected by [validateAmount] and by the prompt's [validate] callback, so
    a transfer flow whose user types only such amounts issues no call; '-5'
    is rejected with 'Amount must be greater than 0'. *)
Theorem invalid_amounts_rejected (P : platform) (cfg : config) :
  (forall amount token,
     ~ positive_finite (parseFloat amount) ->
     valid (validateAmount amount token) = false /\
     validateAmountInput token amount <> Pass) /\
  (forall w s,
     Forall (fun line => ~ positive_finite (parseFloat line)) (tl (typed w)) ->
     calls (trace (run (transferTokens P cfg) w s)) = [] /\
     calls (trace (run (transferSOLArbitrary P cfg) w s)) = []) /\
  (forall token,
     validateAmount "-5" token =
       {| valid := false; error := Some "Amount must be greater than 0" |}).
Proof.
split; [|split].
- intros amount token H. split; [apply rejected_amount, H | apply rejected_input, H].
- intros w s Hbad.
  assert (forall token rest, Forall (fun line => ~ positive_finite (parseFloat line)) rest ->
            snd (ask (validateAmountInput token) rest) = None) as Hnone.
  { intros token rest Hrest. apply ask_all_fail.
    eapply Forall_impl; [exact Hrest|]. intros a Ha. apply rejected_input, Ha. }
  split.
  + unfold transferTokens. cbn.
    destruct (negb (Js.truthy (userSession s)) || negb (Js.truthy (sessionSecrets s)));
      [reflexivity|]. cbn.
    pose proof (ask_calls (validateRecipient P) (typed w)) as Hc.
    pose proof (ask_tail (validateRecipient P) (typed w)) as Ht.
    destruct (ask (validateRecipient P) (typed w)) as [evs [[a rest]|]]; cbn in *.
    * specialize (Hnone USDC rest (Ht _ _ _ eq_refl Hbad)).
      pose proof (ask_calls (validateAmountInput USDC) rest) as Hc'.
      destruct (ask (validateAmountInput USDC) rest) as [evs' r]; cbn in *. subst r.
      cbn. repeat (rewrite ?calls_app, ?Hc, ?Hc'; cbn [calls app]). reflexivity.
    * rewrite calls_app, Hc. reflexivity.
  + unfold transferSOLArbitrary, when. cbn.
    destruct (negb (Js.truthy (userSession s)) || negb (Js.truthy (sessionSecrets s)));
      [reflexivity|].
    destruct (DEBUG_MODE cfg); cbn.
    all: repeat match goal with
         | |- context [if Js.truthy ?v then _ else _] => destruct (Js.truthy v); cbn
         end.
    all: pose proof (ask_calls (validateRecipient P) (typed w)) as Hc;
      pose proof (ask_tail (validateRecipient P) (typed w)) as Ht;
      destruct (ask (validateRecipient P) (typed w)) as [evs [[a rest]|]]; cbn in *;
      [ specialize (Hnone SOL rest (Ht _ _ _ eq_refl Hbad));
        pose proof (ask_calls (validateAmountInput SOL) rest) as Hc';
        destruct (ask (validateAmountInput SOL) rest) as [evs' r]; cbn in *; subst r; cbn
      | ];
      repeat (rewrite ?calls_app, ?Hc, ?Hc'; cbn [calls app]); reflexivity.
- intros []; reflexivity.
Qed.

(** A valid recipient followed by '-5' and 'abc': nothing is sent. *)
Lemma invalid_amounts_rejected_witness :
  let w := Sample.script [Sample.ADDR2; "-5"; "abc"] [] in
  calls (trace (run (transferTokens Sample.node Sample.quiet) w Sample.logged_in)) = [] /\
  calls (trace (run (transferSOLArbitrary Sample.node Sample.quiet) w Sample.logged_in)) = [].
Proof.
apply (proj1 (proj2 (invalid_amounts_rejected Sample.node Sample.quiet))).
repeat constructor; intros (m & e & H); vm_compute in H; discriminate H.
Defined.

(** ** C5: the two signature extractions *)

Definition both_signatures : value :=
VObject [("transaction_signature", VText "A"); ("signature", VText "B")].

(** C5, as stated, fails: a response that carries both
    [transaction_signature] and [signature] gives the USDC flow the former
    and the SOL flow the latter. *)
Lemma extraction_order_differs :
  signatureOfSend both_signatures = VText "A" /\
  signatureOfSignAndSend both_signatures = VText "B" /\
  signatureOfSend both_signatures <> signatureOfSignAndSend both_signatures.
Proof. split; [reflexivity|]. split; [reflexivity | discriminate]. Qed.

Fixpoint first_truthy (candidates : list value) : value :=
match candidates with
| [] => VNull
| v :: rest => if Js.truthy v then v else first_truthy rest
end.

(** C5, amended. Both extractions draw on [transaction_signature],
    [signature] and [data.signature] and take the first truthy one, the USDC
    flow in that order and the SOL flow with [signature] first; they agree
    unless [transaction_signature] and [signature] are both truthy, and each
    yields a falsy signature, the unexpected-format outcome, exactly when
    the response or all three fields are falsy.  Neither can throw. *)
Theorem signature_extraction (r : value) :
  let ts := Js.member r "transaction_signature" in
  let sg := Js.member r "signature" in
  let ds := Js.opt (Js.member r "data") "signature" in
  signatureOfSend r = (if Js.truthy r then first_truthy [ts; sg; ds] else VNull) /\
  signatureOfSignAndSend r = (if Js.truthy r then first_truthy [sg; ts; ds] else VNull) /\
  (Js.truthy ts && Js.truthy sg = false ->
     signatureOfSend r = signatureOfSignAndSend r) /\
  Js.truthy (signatureOfSend r) =
    Js.truthy r && (Js.truthy ts || Js.truthy sg || Js.truthy ds) /\
  Js.truthy (signatureOfSignAndSend r) =
    Js.truthy r && (Js.truthy ts || Js.truthy sg || Js.truthy ds).
Proof.
intros ts sg ds.
unfold signatureOfSend, signatureOfSignAndSend, first_truthy, Js.and, Js.or.
fold ts sg ds. simpl.
destruct (Js.truthy r) eqn:Hr; simpl.
- destruct (Js.truthy ts) eqn:Hts, (Js.truthy sg) eqn:Hsg, (Js.truthy ds) eqn:Hds;
    simpl; rewrite ?Hts, ?Hsg, ?Hds; simpl; rewrite ?Hts, ?Hsg, ?Hds;
    (split; [reflexivity|]); (split; [reflexivity|]);
    (split; [try reflexivity; discriminate|]);
    split; auto.
- rewrite ?Hr; simpl; rewrite ?Hr. repeat split; reflexivity.
Qed.

(** A response with the nested shape only: both flows read it alike. *)
Lemma signature_extraction_witness :
  let r := VObject [("data", VObject [("signature", VText "S")])] in
  signatureOfSend r = signatureOfSignAndSend r.
Proof.
apply (proj1 (proj2 (proj2 (signature_extraction
         (VObject [("data", VObject [("signature", VText "S")])]))))).
reflexivity.
Defined.

(** ** C6: the balance of a token *)

(** A field is present when reading it does not give [undefined]. *)
Definition present (v : value) : Prop := v <> VUndefined.

Definition zero_decimal : value :=
VObject [("symbol", VText "USDC"); ("amount", VText "5000000");
         ("amount_decimal", VNumber (Num.lit 0)); ("decimals", VNumber (Num.lit 6))].

(** C6, as stated, fails: [amount_decimal: 0] is present and the balance is
    computed from [amount] all the same. *)
Lemma balance_not_by_presence :
  present (Js.member zero_decimal "amount_decimal") /\
  tokenBalance Sample.node zero_decimal = Ret (VNumber (Num.lit 5)) /\
  tokenBalance Sample.node zero_decimal <> Ret (Js.member zero_decimal "amount_decimal").
Proof. split; [discriminate|]. split; [reflexivity | discriminate]. Qed.

(** C6, amended. The balance of a token is [amount_decimal] whenever that
    field is truthy, and otherwise [Number(amount) / Math.pow(10, d)] with
    [d] the [decimals] field when it is truthy and 6 when it is
    unspecified. *)
Theorem token_balance (P : platform) (token : value) :
  Js.nullish token = false ->
  let computed (decimals : value) :=
    VNumber (Num.div (Js.ToNumber P (Js.member token "amount"))
                     (Math_pow P (Num.lit 10) (Js.ToNumber P decimals))) in
  (Js.truthy (Js.member token "amount_decimal") = true ->
     tokenBalance P token = Ret (Js.member token "amount_decimal")) /\
  (Js.truthy (Js.member token "amount_decimal") = false ->
   Js.truthy (Js.member token "decimals") = true ->
     tokenBalance P token = Ret (computed (Js.member token "decimals"))) /\
  (Js.truthy (Js.member token "amount_decimal") = false ->
   Js.member token "decimals" = VUndefined ->
     tokenBalance P token = Ret (computed (VNumber (Num.lit 6)))).
Proof.
intros H computed. unfold tokenBalance, or_else. rewrite !get_member by exact H. simpl.
split; [|split].
- intros ->. reflexivity.
- intros -> Hd. unfold Js.or. rewrite Hd. reflexivity.
- intros -> Hd. rewrite Hd. reflexivity.
Qed.

(** Five million base units with no decimals given: 5. *)
Lemma token_balance_witness :
  tokenBalance Sample.node (VObject [("symbol", VText "USDC"); ("amount", VText "5000000")]) =
  Ret (VNumber (Num.lit 5)).
Proof.
refine (proj2 (proj2 (token_balance Sample.node
          (VObject [("symbol", VText "USDC"); ("amount", VText "5000000")]) _)) _ _);
  reflexivity.
Defined.

(** ** C7: the signing context *)

Definition empty_session : value :=
VObject [("session", VText ""); ("authentication", VText "auth")].

(** C7, as stated, fails: an empty [session] field is present, and the
    signing context is the [authentication] field. *)
Lemma signing_context_not_by_presence :
  present (Js.member empty_session "session") /\
  signingContext empty_session = Ret (Js.member empty_session "authentication") /\
  signingContext empty_session <> Ret (Js.member empty_session "session").
Proof. split; [discriminate|]. split; [reflexivity | discriminate]. Qed.

(** [userSession.session || userSession.authentication] *)
Definition contextOf (session : value) : value :=
Js.or (Js.member session "session") (Js.member session "authentication").

(** Every [sign] call carries the session secrets and the signing context
    of the stored session. *)
Definition signs_with (s : state) (e : event) : Prop :=
match e with
| ECall (sign secrets session _) =>
    secrets = sessionSecrets s /\ session = contextOf (userSession s)
| _ => True
end.

Definition anyhow {A : Type} (o : outcome A) (s : state) : Prop := True.

Create HintDb paths.

#[export] Hint Unfold mbind prog_bind console prompt menu read construct eval await when get
  or_else debugLog simpleLog accountAddressOf signingContext Js.get after caught anyhow
  contextOf Js.or : paths.

(** Following every path of a flow. *)
Ltac wp_step :=
  first
    [ progress (autounfold with paths)
    | progress (cbn [wp bind try_catch signs_with])
    | progress intros
    | split
    | reflexivity
    | match goal with
      | |- context [if ?b then _ else _] => destruct b eqn:?
      | |- context [match ?x with _ => _ end] => destruct x eqn:?
      end ].

Lemma transferTokens_signs (P : platform) (cfg : config) (s : state) :
  wp (signs_with s) anyhow (transferTokens P cfg) s.
Proof. unfold transferTokens. repeat wp_step. all: congruence. Qed.

(** C7, amended. The USDC flow signs with the session's [session] field
    whenever that field is truthy, and with its [authentication] field
    otherwise, in particular when [session] is absent. *)
Theorem signing_context (P : platform) (cfg : config) (w : world) (s : state) :
  Js.truthy (userSession s) = true ->
  Forall (signs_with s) (trace (run (transferTokens P cfg) w s)) /\
  signingContext (userSession s) = Ret (contextOf (userSession s)) /\
  (Js.truthy (Js.member (userSession s) "session") = true ->
     contextOf (userSession s) = Js.member (userSession s) "session") /\
  (Js.truthy (Js.member (userSession s) "session") = false ->
     contextOf (userSession s) = Js.member (userSession s) "authentication") /\
  (Js.member (userSession s) "session" = VUndefined ->
     contextOf (userSession s) = Js.member (userSession s) "authentication").
Proof.
intros Hs. split; [|split; [|split; [|split]]].
- apply (wp_run (signs_with s) anyhow), transferTokens_signs.
- apply or_else_get, truthy_not_nullish, Hs.
- unfold contextOf, Js.or. intros ->. reflexivity.
- unfold contextOf, Js.or. intros ->. reflexivity.
- unfold contextOf, Js.or. intros ->. reflexivity.
Qed.

(** The sample session has no [session] field: its [authentication] field
    signs. *)
Lemma signing_context_witness :
  contextOf Sample.session = VArray [VObject [("provider", VText "privy")]].
Proof.
refine (proj2 (proj2 (proj2 (proj2
          (signing_context Sample.node Sample.quiet (Sample.script [] []) Sample.logged_in _)))) _);
  reflexivity.
Defined.

(** ** C8: the missing API key *)

Definition selected (env : gmap string string) : string :=
env_or env "GRID_ENVIRONMENT" "sandbox".

Definition missing_key_report (environment : string) : list event :=
[EConsole Error [VText "❌ ERROR: Missing API key for environment:";
                 VText (Str.toUpperCase environment)];
 EConsole Error [VText "📝 Please set the following environment variable:"];
 EConsole Error [VText ("   " +:+ key_variable environment)];
 EConsole Error [VText "💡 Copy .env.example to .env and add your API keys"]].

(** C8. When the key of the selected environment is absent
    ([GRID_PRODUCTION_API_KEY] under [GRID_ENVIRONMENT=production],
    [GRID_SANDBOX_API_KEY] otherwise) the script prints the four lines that
    name the variable to set and exits with code 1; no handle is
    constructed and no call is issued. *)
Theorem missing_key_exits (P : platform) (env : gmap string string) (argv : list string)
    (rounds : nat) (w : world) (s : state) :
  (env !! "GRID_ENVIRONMENT" = Some "production" ->
     env !! "GRID_PRODUCTION_API_KEY" = None) ->
  (env !! "GRID_ENVIRONMENT" <> Some "production" ->
     env !! "GRID_SANDBOX_API_KEY" = None) ->
  let x := run (script P env argv rounds) w s in
  x = {| trace := missing_key_report (selected env);
         result := Exited 1; final := s; remaining := w |} /\
  handles (trace x) = [] /\
  calls (trace x) = [].
Proof.
intros Hprod Hsand x.
assert (x = {| trace := missing_key_report (selected env);
               result := Exited 1; final := s; remaining := w |}) as ->;
  [|repeat split; reflexivity].
subst x. unfold script, load_config, selected, env_or. simpl.
destruct (env !! "GRID_ENVIRONMENT") as [v|] eqn:Hv.
- destruct (String.eqb v "production") eqn:E.
  + apply String.eqb_eq in E. subst v. simpl. rewrite Hprod by reflexivity. reflexivity.
  + assert (Some v <> Some "production") as Hne.
    { intros [= ->]. rewrite String.eqb_refl in E. discriminate. }
    destruct (Str.is_empty v) eqn:Ev.
    * simpl. rewrite (Hsand Hne). reflexivity.
    * rewrite E. rewrite (Hsand Hne). simpl.
      unfold missing_key_report, key_variable. rewrite E. reflexivity.
- simpl. rewrite Hsand by discriminate. reflexivity.
Qed.

(** Production is selected and only the sandbox key is set. *)
Lemma missing_key_exits_witness :
  let env : gmap string string :=
    {[ "GRID_ENVIRONMENT" := "production"; "GRID_SANDBOX_API_KEY" := "key" ]} in
  let x := run (script Sample.node env [] 1) (Sample.script [] []) initial in
  result x = Exited 1 /\ handles (trace x) = [] /\ calls (trace x) = [].
Proof.
intros env x.
destruct (missing_key_exits Sample.node env [] 1 (Sample.script [] []) initial)
  as (Hx & Hh & Hc).
- intros _. vm_compute. reflexivity.
- intros H. exfalso. apply H. vm_compute. reflexivity.
- fold x in Hx, Hh, Hc. rewrite Hx at 1. repeat split; assumption.
Defined.

(** ** C9: a transfer of zero lamports *)

(** C9. The amount '0.0000000001' passes the SOL validation and converts to
    0 lamports, so the SOL flow builds and submits a transfer instruction of
    zero lamports; [validateAmount] accepts exactly the positive finite
    numbers that do not exceed 10,000, with no smaller bound. *)
Theorem zero_lamport_transfer :
  exists amount,
    valid (validateAmount amount SOL) = true /\
    validateAmountInput SOL amount = Pass /\
    lamportsOf amount = Num.pzero /\
    (forall other,
       valid (validateAmount other SOL) = true <->
       positive_finite (parseFloat other) /\
       Num.gt (parseFloat other) (Num.lit 10000) = false) /\
    (forall P cfg s recipient lines picks latest outcomes base64,
       authenticated s ->
       Js.truthy (account s) = true ->
       validateRecipient P recipient = Pass ->
       PublicKey_rejects P (account s) = None ->
       PublicKey_rejects P (VText recipient) = None ->
       transfer_rejects P Num.pzero = None ->
       Js.nullish latest = false ->
       serialize_base64 P (transferOf s recipient Num.pzero (Js.member latest "blockhash")) =
         Normal base64 ->
       firstn 2 (calls (trace (run (transferSOLArbitrary P cfg)
                                   {| typed := recipient :: amount :: lines;
                                      picked := picks;
                                      replies := Normal latest :: outcomes |} s))) =
       [getLatestBlockhash "finalized";
        prepareArbitraryTransaction (account s) {| transaction := base64 |}]).
Proof.
exists "0.0000000001".
assert (lamportsOf "0.0000000001" = Num.pzero) as Hzero by (vm_compute; reflexivity).
split; [vm_compute; reflexivity|]. split; [vm_compute; reflexivity|].
split; [exact Hzero|]. split; [exact accepted_sol|].
intros P cfg s recipient lines picks latest outcomes base64
  Hauth Haccount Hrecipient Hfrom Hto Htransfer Hlatest Hserial.
apply sol_submission; rewrite ?Hzero; try assumption.
vm_compute; reflexivity.
Qed.

(** On the sample platform the serialised transfer reads 0 lamports. *)
Lemma zero_lamport_transfer_witness :
  exists amount,
    validateAmountInput SOL amount = Pass /\
    firstn 2 (calls (trace (run (transferSOLArbitrary Sample.node Sample.quiet)
                                (Sample.script [Sample.ADDR2; amount]
                                   [Normal (VObject [("blockhash", VText "HASH")])])
                                Sample.logged_in))) =
    [getLatestBlockhash "finalized";
     prepareArbitraryTransaction (VText Sample.ADDR1)
       {| transaction :=
            Sample.ADDR1 +:+ ">" +:+ Sample.ADDR2 +:+ ":0;@HASH" |}].
Proof.
destruct zero_lamport_transfer as (amount & _ & Hpass & _ & _ & Hrun).
exists amount. split; [exact Hpass|].
apply (Hrun Sample.node Sample.quiet Sample.logged_in Sample.ADDR2 [] []
            (VObject [("blockhash", VText "HASH")]) []).
- split; reflexivity.
- reflexivity.
- vm_compute; reflexivity.
- vm_compute; reflexivity.
- vm_compute; reflexivity.
- reflexivity.
- reflexivity.
- reflexivity.
Defined.

(** ** C10: who writes the session variables *)

(** The OTP step is no frame: it stores the secrets it generates. *)
Lemma verifyOtp_writes (P : platform) (cfg : config) (email : string) (isNewUser : bool) :
  ~ frame (verifyOtp P cfg email isNewUser).
Proof.
intros H. specialize (H initial). unfold verifyOtp in H. cbn in H.
destruct H as (_ & _ & _ & H). specialize (H EmptyString eq_refl).
cbn in H. destruct H as (_ & _ & H). specialize (H (Normal VNull)).
cbn in H. destruct H as [H _]. discriminate H.
Qed.

(** C10. The balance flow never writes [userSession] or [sessionSecrets]:
    every run of it ends in the state it started in and emits no write.  The
    same holds of the two transfer flows, of the client initialisation, of
    every menu choice but the login, and of the login flow apart from the OTP
    step it calls, which does write. *)
Theorem session_written_by_otp_only (P : platform) (cfg : config) :
  (forall w s,
     final (run (checkBalance P) w s) = s /\
     Forall reads_only (trace (run (checkBalance P) w s))) /\
  frame (checkBalance P) /\
  frame (transferTokens P cfg) /\
  frame (transferSOLArbitrary P cfg) /\
  frame (initializeGridClient P cfg) /\
  (forall otpStep,
     (forall email isNewUser, frame (otpStep email isNewUser)) ->
     frame (loginOrRegisterWith P cfg otpStep)) /\
  (forall choice, choice <> login -> frame (dispatch P cfg choice)) /\
  (forall email isNewUser, ~ frame (verifyOtp P cfg email isNewUser)).
Proof.
pose proof (checkBalance_frame P) as Hb.
split; [intros w s; apply frame_run, Hb|].
split; [exact Hb|].
split; [apply transferTokens_frame|].
split; [apply transferSOLArbitrary_frame|].
split; [apply initializeGridClient_frame|].
split; [apply loginOrRegisterWith_frame|].
split; [|apply verifyOtp_writes].
intros choice Hne. unfold dispatch.
destruct choice; try contradiction.
- apply frame_bind; [exact Hb | intros _; apply frame_ret].
- apply frame_bind; [apply transferTokens_frame | intros _; apply frame_ret].
- apply frame_bind; [apply transferSOLArbitrary_frame | intros _; apply frame_ret].
- apply frame_bind; [apply frame_console, frame_ret | intros _; apply frame_ret].
Qed.

(** A balance query with a failing response leaves the session as it was. *)
Lemma session_written_by_otp_only_witness :
  final (run (checkBalance Sample.node)
             (Sample.script [] [Normal (VObject [("success", VBool false)])])
             Sample.logged_in) = Sample.logged_in /\
  frame (loginOrRegisterWith Sample.node Sample.quiet (fun _ _ => Ret ())).
Proof.
split.
- apply (proj1 (session_written_by_otp_only Sample.node Sample.quiet)).
- apply (proj1 (proj2 (proj2 (proj2 (proj2 (proj2
           (session_written_by_otp_only Sample.node Sample.quiet))))))).
  intros _ _. apply frame_ret.
Defined.


(** * Further properties of the flows *)

(** ** Stories

    What a run shows of itself, read through a choice of observations:
    [obs] picks what to keep of an event, [exch] what to keep of a call
    together with the reply it got ([None] while the reply is pending).
    [hp R p h s] says that [p], started in state [s] after the story [h],
    stops in every environment whose replies satisfy [G] with a story, an
    outcome and a state that satisfy [R]. *)

Section Stories.

Context {X : Type}.
Variable obs : event -> option X.
Variable exch : call -> option (completion value) -> option X.
Variable G : completion value -> Prop.

Definition add (o : option X) (l : list X) : list X :=
  match o with Some x => x :: l | None => l end.

Definition note (h : list X) (o : option X) : list X :=
  match o with Some x => h ++ [x] | None => h end.

(** The story of a trace: the calls are matched with the replies of the
    environment in the order in which [run] hands them out. *)
Fixpoint story (tr : list event) (rs : list (completion value)) : list X :=
  match tr with
  | [] => []
  | ECall c :: rest =>
      match rs with
      | r :: rs' => add (exch c (Some r)) (story rest rs')
      | [] => add (exch c None) (story rest [])
      end
  | e :: rest => add (obs e) (story rest rs)
  end.

Fixpoint hp {A : Type} (R : list X -> outcome A -> state -> Prop)
    (p : prog A) (h : list X) (s : state) : Prop :=
  match p with
  | Ret a => R h (Returned a) s
  | Throw e => R h (Uncaught e) s
  | Exit c => R h (Exited c) s
  | Console ch args k => hp R k (note h (obs (EConsole ch args))) s
  | Prompt q k =>
      R (note h (obs (EAsk (message q)))) Waiting s /\
      forall a, validate q a = Pass -> hp R (k a) (note h (obs (EAsk (message q)))) s
  | Menu k =>
      R (note h (obs EMenu)) Waiting s /\
      forall a, hp R (k a) (note h (obs EMenu)) s
  | Await c k =>
      R (note h (exch c None)) Waiting s /\
      forall r, G r -> hp R (k r) (note h (exch c (Some r))) s
  | New x k => hp R k (note h (obs (ENew x))) s
  | Read k => hp R (k s) h s
  | WriteSession v k => hp R k (note h (obs (ESetSession v))) (set_session s v)
  | WriteSecrets v k => hp R k (note h (obs (ESetSecrets v))) (set_secrets s v)
  end.

(** What [R] asks of [p ≫= f] is asked of [f] when [p] returns, and what it
    asks of [try p catch handler] is asked of the handler when [p] throws. *)
Definition and_then {A B : Type} (R : list X -> outcome B -> state -> Prop)
    (f : A -> prog B) (h : list X) (o : outcome A) (s : state) : Prop :=
  match o with
  | Returned a => hp R (f a) h s
  | Uncaught e => R h (Uncaught e) s
  | Exited c => R h (Exited c) s
  | Waiting => R h Waiting s
  end.

Definition or_catch {A : Type} (R : list X -> outcome A -> state -> Prop)
    (handler : value -> prog A) (h : list X) (o : outcome A) (s : state) : Prop :=
  match o with
  | Uncaught e => hp R (handler e) h s
  | _ => R h o s
  end.

Lemma hp_mono {A : Type} (R R' : list X -> outcome A -> state -> Prop) (p : prog A) :
  (forall h o s, R h o s -> R' h o s) -> forall h s, hp R p h s -> hp R' p h s.
Proof.
intros HR. induction p; simpl; intros h0 s0 Hp; auto.
- destruct Hp as [Hw Hk]. split; auto.
- destruct Hp as [Hw Hk]. split; auto.
- destruct Hp as [Hw Hk]. split; auto.
Qed.

Lemma hp_bind {A B : Type} (R : list X -> outcome B -> state -> Prop)
    (f : A -> prog B) (p : prog A) :
  forall h s, hp (and_then R f) p h s -> hp R (bind f p) h s.
Proof.
induction p; simpl; intros h0 s0 Hp; auto.
- destruct Hp as [Hw Hk]. split; auto.
- destruct Hp as [Hw Hk]. split; auto.
- destruct Hp as [Hw Hk]. split; auto.
Qed.

Lemma hp_try_catch {A : Type} (R : list X -> outcome A -> state -> Prop)
    (handler : value -> prog A) (p : prog A) :
  forall h s, hp (or_catch R handler) p h s -> hp R (try_catch p handler) h s.
Proof.
induction p; simpl; intros h0 s0 Hp; auto.
- destruct Hp as [Hw Hk]. split; auto.
- destruct Hp as [Hw Hk]. split; auto.
- destruct Hp as [Hw Hk]. split; auto.
Qed.

Lemma note_add (h : list X) (o : option X) (l : list X) : note h o ++ l = h ++ add o l.
Proof. destruct o; simpl; [rewrite <- app_assoc|]; reflexivity. Qed.

(** The messages inquirer shows for rejected lines are no part of a story. *)
Hypothesis obs_invalid : forall m, obs (EInvalid m) = None.

Lemma story_invalid (evs tr : list event) (rs : list (completion value)) :
  Forall (fun e => exists m, e = EInvalid m) evs -> story (evs ++ tr) rs = story tr rs.
Proof.
induction 1 as [|e evs [m ->] _ IH]; [reflexivity|].
simpl. rewrite obs_invalid. exact IH.
Qed.

(** Adequacy: what [hp] promises holds of every run. *)
Lemma hp_run {A : Type} (R : list X -> outcome A -> state -> Prop) (p : prog A) :
  forall h w s, hp R p h s -> Forall G (replies w) ->
    R (h ++ story (trace (run p w s)) (replies w))
      (result (run p w s)) (final (run p w s)).
Proof.
induction p; simpl; intros h0 w s0 Hp Hw; try (rewrite app_nil_r; exact Hp).
- rewrite <- note_add. apply IHp; assumption.
- destruct Hp as [Hwait Hk].
  pose proof (ask_events (validate q) (typed w)) as Hev.
  pose proof (ask_passes (validate q) (typed w)) as Hpass.
  destruct (ask (validate q) (typed w)) as [evs [[a rest]|]]; simpl in *.
  + destruct (Hpass a rest eq_refl) as [Ha _].
    rewrite story_invalid by exact Hev. rewrite <- note_add.
    apply (H a _ (set_typed w rest) s0 (Hk a Ha) Hw).
  + rewrite story_invalid by exact Hev. simpl. rewrite <- note_add, app_nil_r. exact Hwait.
- destruct Hp as [Hwait Hk]. destruct (picked w) as [|a rest]; simpl.
  + rewrite <- note_add, app_nil_r. exact Hwait.
  + rewrite <- note_add. apply (H a _ (set_picked w rest) s0 (Hk a) Hw).
- destruct Hp as [Hwait Hk]. destruct (replies w) as [|r rest] eqn:Hr; simpl.
  + rewrite <- note_add, app_nil_r. exact Hwait.
  + inversion Hw; subst. rewrite <- note_add.
    apply (H r _ (set_replies w rest) s0 (Hk r ltac:(assumption))). assumption.
- rewrite <- note_add. apply IHp; assumption.
- apply H; assumption.
- rewrite <- note_add. apply IHp; assumption.
- rewrite <- note_add. apply IHp; assumption.
Qed.


(** Asides: segments that add nothing to the story and leave the state
    alone.  A calm segment returns; a still one returns or throws. *)

Definition returns {A : Type} (o : outcome A) : Prop :=
  match o with Returned _ => True | _ => False end.

Definition passes {A : Type} (o : outcome A) : Prop :=
  match o with Returned _ | Uncaught _ => True | _ => False end.

Definition aside {A : Type} (T : outcome A -> Prop) (p : prog A) : Prop :=
  forall h s, hp (fun h' o s' => h' = h /\ s' = s /\ T o) p h s.

Definition calm {A : Type} (p : prog A) : Prop := aside returns p.
Definition still {A : Type} (p : prog A) : Prop := aside passes p.

Lemma calm_still {A : Type} (p : prog A) : calm p -> still p.
Proof.
intros H h s. eapply hp_mono; [|apply H].
intros h' [a|e|c|] s' (? & ? & HT); simpl in *; auto; contradiction.
Qed.

Lemma calm_ret {A : Type} (a : A) : calm (Ret a).
Proof. intros h s. simpl. auto. Qed.

Lemma still_ret {A : Type} (a : A) : still (Ret a).
Proof. intros h s. simpl. auto. Qed.

Lemma still_throw {A : Type} (e : value) : still (@Throw A e).
Proof. intros h s. simpl. auto. Qed.

Lemma still_eval {A : Type} (c : completion A) : still (eval c).
Proof. destruct c; [apply still_ret | apply still_throw]. Qed.

Lemma calm_console {A : Type} ch args (k : prog A) :
  obs (EConsole ch args) = None -> calm k -> calm (Console ch args k).
Proof. intros Ho H h s. simpl. rewrite Ho. apply H. Qed.

Lemma still_console {A : Type} ch args (k : prog A) :
  obs (EConsole ch args) = None -> still k -> still (Console ch args k).
Proof. intros Ho H h s. simpl. rewrite Ho. apply H. Qed.

Lemma calm_new {A : Type} x (k : prog A) :
  obs (ENew x) = None -> calm k -> calm (New x k).
Proof. intros Ho H h s. simpl. rewrite Ho. apply H. Qed.

Lemma calm_bind {A B : Type} (p : prog A) (f : A -> prog B) :
  calm p -> (forall a, calm (f a)) -> calm (bind f p).
Proof.
intros Hp Hf h s. apply hp_bind. eapply hp_mono; [|apply Hp].
intros h' [a|e|c|] s' (-> & -> & HT); simpl in *; try contradiction. apply Hf.
Qed.

Lemma still_bind {A B : Type} (p : prog A) (f : A -> prog B) :
  still p -> (forall a, still (f a)) -> still (bind f p).
Proof.
intros Hp Hf h s. apply hp_bind. eapply hp_mono; [|apply Hp].
intros h' [a|e|c|] s' (-> & -> & HT); simpl in *; try contradiction; auto. apply Hf.
Qed.

Lemma still_try_catch {A : Type} (p : prog A) (handler : value -> prog A) :
  still p -> (forall e, still (handler e)) -> still (try_catch p handler).
Proof.
intros Hp Hh h s. apply hp_try_catch. eapply hp_mono; [|apply Hp].
intros h' [a|e|c|] s' (-> & -> & HT); simpl in *; try contradiction; auto. apply Hh.
Qed.

Lemma hp_calm {A : Type} (R : list X -> outcome A -> state -> Prop) (p : prog A) h s :
  calm p -> (forall a, R h (Returned a) s) -> hp R p h s.
Proof.
intros Hp Hr. eapply hp_mono; [|apply Hp].
intros h' [a|e|c|] s' (-> & -> & HT); simpl in *; try contradiction. apply Hr.
Qed.

Lemma hp_still {A : Type} (R : list X -> outcome A -> state -> Prop) (p : prog A) h s :
  still p -> (forall a, R h (Returned a) s) -> (forall e, R h (Uncaught e) s) -> hp R p h s.
Proof.
intros Hp Hr He. eapply hp_mono; [|apply Hp].
intros h' [a|e|c|] s' (-> & -> & HT); simpl in *; try contradiction; auto.
Qed.

Lemma hp_calm_bind {A B : Type} (R : list X -> outcome B -> state -> Prop)
    (p : prog A) (f : A -> prog B) h s :
  calm p -> (forall a, hp R (f a) h s) -> hp R (bind f p) h s.
Proof. intros Hp Hf. apply hp_bind, hp_calm; [exact Hp | exact Hf]. Qed.

Lemma hp_still_bind {A B : Type} (R : list X -> outcome B -> state -> Prop)
    (p : prog A) (f : A -> prog B) h s :
  still p -> (forall a, hp R (f a) h s) -> (forall e, R h (Uncaught e) s) ->
  hp R (bind f p) h s.
Proof. intros Hp Hf He. apply hp_bind, hp_still; [exact Hp | exact Hf | exact He]. Qed.

End Stories.

Lemma calm_forEachIndexed {X A : Type} (obs : event -> option X) exch G
    (f : nat -> A -> prog ()) (l : list A) :
  (forall i x, calm obs exch G (f i x)) -> forall i, calm obs exch G (forEachIndexed f i l).
Proof.
intros Hf. induction l as [|x l IH]; simpl; intros i; [apply calm_ret|].
apply calm_bind; [apply Hf | intros _; apply IH].
Qed.

Lemma still_forEach {X A : Type} (obs : event -> option X) exch G
    (f : A -> prog ()) (l : list A) :
  (forall x, still obs exch G (f x)) -> still obs exch G (forEach f l).
Proof.
intros Hf. induction l as [|x l IH]; simpl; [apply still_ret|].
apply still_bind; [apply Hf | intros _; exact IH].
Qed.


(** *** Walking through a flow *)

Lemma accountAddressOf_account (s : state) :
  Js.truthy (userSession s) = true -> accountAddressOf (userSession s) = Ret (account s).
Proof. intros H. apply or_else_get, truthy_not_nullish, H. Qed.

Lemma signingContext_contextOf (s : state) :
  Js.truthy (userSession s) = true ->
  signingContext (userSession s) = Ret (contextOf (userSession s)).
Proof. intros H. apply or_else_get, truthy_not_nullish, H. Qed.

(** The test on an error message has no effect of its own. *)
Lemma messageIncludes_pure (what : string) (m : value) (needles : list string) :
  (exists b, messageIncludes what m needles = Ret b) \/
  (exists e, messageIncludes what m needles = Throw e).
Proof.
unfold messageIncludes. destruct (Js.truthy m); [|left; eexists; reflexivity].
induction needles as [|n r IH]; [left; eexists; reflexivity|].
destruct (Js.includes what m n) as [[|]|e]; simpl.
- left; eexists; reflexivity.
- exact IH.
- right; eexists; reflexivity.
Qed.

Ltac not_nullish :=
  solve [ reflexivity | assumption | apply truthy_not_nullish; assumption ].

Ltac head_of t :=
  lazymatch t with
  | ?f _ => head_of f
  | _ => t
  end.

(** Unfolds the definition at the head of the program [p]. *)
Ltac open_head p :=
  let c := head_of p in
  let p' := eval unfold c in p in
  change p with p'.

Ltac calm_step :=
  lazymatch goal with
  | |- forall _, _ => intro
  | |- calm _ _ _ ?p =>
      lazymatch p with
      | _ ≫= _ => unfold mbind, prog_bind
      | Ret _ => apply calm_ret
      | Console _ _ _ => apply calm_console; [reflexivity|]
      | New _ _ => apply calm_new; [reflexivity|]
      | bind _ _ => apply calm_bind
      | forEachIndexed _ _ _ => apply calm_forEachIndexed
      | get ?v ?k => rewrite (get_member v k) by not_nullish
      | if ?b then _ else _ => destruct b
      | match ?x with _ => _ end => destruct x
      | Throw _ => fail
      | eval _ => fail
      | Prompt _ _ => fail
      | Menu _ => fail
      | Await _ _ => fail
      | Read _ => fail
      | WriteSession _ _ => fail
      | WriteSecrets _ _ => fail
      | try_catch _ _ => fail
      | _ => open_head p
      end
  end.

Ltac still_step :=
  lazymatch goal with
  | |- forall _, _ => intro
  | |- still _ _ _ ?p =>
      lazymatch p with
      | _ ≫= _ => unfold mbind, prog_bind
      | Ret _ => apply still_ret
      | Throw _ => apply still_throw
      | eval _ => apply still_eval
      | Console _ _ _ => apply still_console; [reflexivity|]
      | bind _ _ => apply still_bind
      | try_catch _ _ => apply still_try_catch
      | forEach _ _ => apply still_forEach
      | forEachIndexed _ _ _ => apply calm_still, calm_forEachIndexed
      | if ?b then _ else _ => destruct b
      | match ?x with _ => _ end => destruct x
      | Prompt _ _ => fail
      | Menu _ => fail
      | Await _ _ => fail
      | New _ _ => fail
      | Read _ => fail
      | WriteSession _ _ => fail
      | WriteSecrets _ _ => fail
      | _ => open_head p
      end
  end.

Lemma still_findUSDC {X : Type} (obs : event -> option X) exch G (tokens : list value) :
  still obs exch G (findUSDC tokens).
Proof. induction tokens; simpl; repeat still_step; assumption. Qed.

Ltac aside_tac :=
  solve [repeat first [apply still_findUSDC | still_step]].

(** Entering a statement that is no aside: what decides its outcome is
    split into cases, with what is known put to use. *)
Ltac enter p :=
  lazymatch p with
  | messageIncludes ?w (Js.member (Js.Error ?m) ?k) ?n =>
      let r := eval vm_compute in (messageIncludes w (Js.member (Js.Error m) k) n) in
      change (messageIncludes w (Js.member (Js.Error m) k) n) with r
  | messageIncludes ?w ?m ?n =>
      let H := fresh "Hfound" in
      destruct (messageIncludes_pure w m n) as [[[|] H]|[? H]]; rewrite H
  | accountAddressOf (userSession _) => rewrite accountAddressOf_account by assumption
  | signingContext (userSession _) => rewrite signingContext_contextOf by assumption
  | get ?v ?k =>
      first [ rewrite (get_member v k) by not_nullish
            | change (get v k) with
                (eval (if Js.nullish v then Throws (Js.cannot_read v k)
                       else Normal (Js.member v k)));
              destruct (Js.nullish v) eqn:? ]
  | eval (Js.destructure ?v ?k) => unfold Js.destructure; destruct (Js.nullish v) eqn:?
  | if negb ?b then _ else _ => destruct b eqn:?; cbn [negb]
  | if ?b then _ else _ => destruct b eqn:?
  | eval (Normal _) => fail
  | eval (Throws _) => fail
  | eval ?c => destruct c eqn:?
  | match ?x with _ => _ end => destruct x eqn:?
  | Ret _ => fail
  | Throw _ => fail
  | Exit _ => fail
  | Console _ _ _ => fail
  | Prompt _ _ => fail
  | Menu _ => fail
  | Await _ _ => fail
  | New _ _ => fail
  | Read _ => fail
  | WriteSession _ _ => fail
  | WriteSecrets _ _ => fail
  | _ => open_head p
  end.

(** One step through a flow: an aside is passed over, anything else is
    entered.  A debug block that reads a field of a response is an aside
    once it is known whether the response is [null]. *)
Ltac flow_step :=
  lazymatch goal with
  | |- forall _, _ => intro
  | |- _ /\ _ => split
  | |- hp _ _ _ _ (_ ≫= _) _ _ => unfold mbind, prog_bind
  | |- hp _ _ _ _ (bind _ ?p) _ _ =>
      lazymatch type of p with
      | prog () =>
          first [ apply hp_calm_bind; [solve [repeat calm_step]|]
                | match p with
                  | context [get ?v _] =>
                      is_var v;
                      lazymatch goal with
                      | H : Js.nullish v = _ |- _ => fail
                      | _ => destruct (Js.nullish v) eqn:?
                      end
                  end
                | apply hp_still_bind; [aside_tac| |]
                | apply hp_bind ]
      | _ => apply hp_bind
      end
  | |- hp _ _ _ _ (try_catch _ _) _ _ => apply hp_try_catch
  | |- hp _ _ _ _ ?p _ _ =>
      first [ progress (cbn [hp and_then or_catch eval])
            | lazymatch type of p with
              | prog () =>
                  first [ apply hp_calm; [solve [repeat calm_step]|]
                        | apply hp_still; [aside_tac| |] ]
              end
            | enter p ]
  | |- and_then _ _ _ _ _ _ _ _ => progress (cbn [hp and_then or_catch])
  | |- or_catch _ _ _ _ _ _ _ _ => progress (cbn [hp and_then or_catch])
  end.


(** ** Dialogues: the calls of a run with the replies they got *)

Definition exchange : Type := call * option (completion value).

Definition unseen (e : event) : option exchange := None.
Definition heard (c : call) (r : option (completion value)) : option exchange := Some (c, r).
Definition anything (r : completion value) : Prop := True.

Definition dialogue {A : Type} (x : execution A) (w : world) : list exchange :=
  story unseen heard (trace x) (replies w).

Lemma anything_goes (w : world) : Forall anything (replies w).
Proof. apply Forall_forall. intros; exact I. Qed.

(** The calls of a dialogue are the calls of the trace. *)
Lemma dialogue_calls (tr : list event) :
  forall rs, map fst (story unseen heard tr rs) = calls tr.
Proof.
induction tr as [|e tr IH]; intros rs; [reflexivity|].
destruct e; simpl; try apply IH.
destruct rs; simpl; f_equal; apply IH.
Qed.

(** The flow returned, or is waiting for its environment. *)
Definition settled {A : Type} (o : outcome A) : Prop :=
  match o with Returned _ | Waiting => True | _ => False end.

(** How a dialogue ends: the last call is still pending, it was rejected,
    or its answer did not let the flow continue. *)
Inductive stops (continues : value -> bool) : option (completion value) -> outcome () -> Prop :=
| stops_pending : stops continues None Waiting
| stops_rejected e : stops continues (Some (Throws e)) (Returned ())
| stops_short v : continues v = false -> stops continues (Some (Normal v)) (Returned ()).

(** Both session variables are set and the session names an account. *)
Definition ready (s : state) : Prop :=
  authenticated s /\ Js.truthy (account s) = true.

Lemma nullish_member (v : value) (k : string) :
  Js.nullish v = true -> Js.truthy (Js.member v k) = false.
Proof. destruct v; simpl; try discriminate; reflexivity. Qed.

Ltac story_leaf :=
  try discriminate;
  cbn [note add app];
  repeat match goal with a : () |- _ => destruct a end;
  cbn [validate recipientQuestion amountQuestion plainQuestion] in *;
  try solve [reflexivity | econstructor; eassumption].

Ltac ready_tac := split; [split; assumption | assumption].

Ltac stops_tac side :=
  first [ apply stops_pending | apply stops_rejected | apply stops_short; side ].

(** *** The balance flow *)

Inductive balance_run (s : state) : list exchange -> outcome () -> Prop :=
| balance_local : balance_run s [] (Returned ())
| balance_pending :
    Js.truthy (account s) = true ->
    balance_run s [(getAccountBalances (account s), None)] Waiting
| balance_answered r :
    Js.truthy (account s) = true ->
    balance_run s [(getAccountBalances (account s), Some r)] (Returned ()).

Lemma checkBalance_story (P : platform) (s : state) :
  hp unseen heard anything (fun h o s' => balance_run s h o /\ s' = s) (checkBalance P) [] s.
Proof.
unfold checkBalance. cbn [mbind prog_bind bind read hp].
destruct (Js.truthy (userSession s)) eqn:Hs; cbn [negb].
2:{ cbn. split; [constructor | reflexivity]. }
repeat flow_step.
all: cbn [unseen heard]; story_leaf.
Qed.

(** X1. In every environment the balance flow makes at most one call, namely
    [getAccountBalances] for the account of the stored session, returns
    whatever the answer is (a rejection and a malformed response included),
    and leaves the session variables as they were. *)
Theorem balance_dialogue (P : platform) (w : world) (s : state) :
  let x := run (checkBalance P) w s in
  balance_run s (dialogue x w) (result x) /\ final x = s.
Proof.
apply (hp_run unseen heard anything (fun _ => eq_refl) _ (checkBalance P) [] w s
         (checkBalance_story P s) (anything_goes w)).
Qed.


(** *** The USDC flow *)






(** *** The SOL flow *)

(** The local part of the SOL flow went through: both keys and the lamport
    amount were accepted. *)
Definition launched (P : platform) (s : state) (recipient amount : string) : Prop :=
  PublicKey_rejects P (account s) = None /\
  PublicKey_rejects P (VText recipient) = None /\
  transfer_rejects P (lamportsOf amount) = None.

(** The transaction of the SOL flow on the block hash of [latest], in
    base64. *)
Definition serialised (P : platform) (s : state) (recipient amount : string) (latest : value)
  : completion string :=
  serialize_base64 P (transferOf s recipient (lamportsOf amount) (Js.member latest "blockhash")).

(** The answer to [getLatestBlockhash] lets the flow continue: it can be
    destructured and the transaction serialises. *)
Definition usable (P : platform) (s : state) (recipient amount : string) (latest : value) : bool :=
  if Js.nullish latest then false
  else match serialised P s recipient amount latest with
       | Normal _ => true
       | Throws _ => false
       end.

Inductive sol_run (P : platform) (s : state) : list exchange -> outcome () -> Prop :=
| sol_unasked o : settled o -> sol_run P s [] o
| sol_blockhash recipient amount r o :
    ready s ->
    validateRecipient P recipient = Pass ->
    validateAmountInput SOL amount = Pass ->
    launched P s recipient amount ->
    stops (usable P s recipient amount) r o ->
    sol_run P s [(getLatestBlockhash "finalized", r)] o
| sol_preparing recipient amount latest base64 r o :
    ready s ->
    validateRecipient P recipient = Pass ->
    validateAmountInput SOL amount = Pass ->
    launched P s recipient amount ->
    Js.nullish latest = false ->
    serialised P s recipient amount latest = Normal base64 ->
    stops (fun prepared => Js.truthy (Js.member prepared "data")) r o ->
    sol_run P s
      [(getLatestBlockhash "finalized", Some (Normal latest));
       (prepareArbitraryTransaction (account s) {| transaction := base64 |}, r)] o
| sol_executing recipient amount latest base64 prepared r o :
    ready s ->
    validateRecipient P recipient = Pass ->
    validateAmountInput SOL amount = Pass ->
    launched P s recipient amount ->
    Js.nullish latest = false ->
    serialised P s recipient amount latest = Normal base64 ->
    Js.truthy (Js.member prepared "data") = true ->
    stops (fun _ => false) r o ->
    sol_run P s
      [(getLatestBlockhash "finalized", Some (Normal latest));
       (prepareArbitraryTransaction (account s) {| transaction := base64 |},
        Some (Normal prepared));
       (signAndSend (sessionSecrets s) (Js.member (userSession s) "authentication")
          (Js.member prepared "data") (account s), r)] o.

Ltac launched_tac := split; [assumption | split; assumption].

Ltac unusable :=
  unfold usable, serialised, transferOf;
  match goal with
  | H : Js.nullish ?v = _ |- context [Js.nullish ?v] => rewrite H
  end;
  try reflexivity;
  match goal with
  | H : serialize_base64 _ _ = _ |- _ => rewrite H; reflexivity
  end.

Lemma transferSOLArbitrary_story (P : platform) (cfg : config) (s : state) :
  hp unseen heard anything (fun h o s' => sol_run P s h o /\ s' = s)
     (transferSOLArbitrary P cfg) [] s.
Proof.
unfold transferSOLArbitrary. cbn [mbind prog_bind bind read hp].
destruct (Js.truthy (userSession s)) eqn:Hs; cbn [negb orb].
2:{ cbn. split; [constructor; exact I | reflexivity]. }
destruct (Js.truthy (sessionSecrets s)) eqn:Hk; cbn [negb orb].
2:{ cbn. split; [constructor; exact I | reflexivity]. }
repeat flow_step.
all: cbn [unseen heard]; story_leaf.
all: try solve [apply sol_unasked; exact I].
all: try solve
  [ eapply sol_blockhash;
    [ ready_tac | eassumption | eassumption | launched_tac | stops_tac ltac:(unusable) ] ].
all: try solve
  [ eapply sol_preparing;
    [ ready_tac | eassumption | eassumption | launched_tac | assumption | eassumption
    | stops_tac ltac:(first [assumption | apply nullish_member; assumption]) ] ].
all: solve
  [ eapply sol_executing;
    [ ready_tac | eassumption | eassumption | launched_tac | assumption | eassumption
    | assumption | stops_tac ltac:(reflexivity) ] ].
Qed.

(** X3. In every environment the SOL flow talks to the network in one fixed
    order: it asks for the latest block hash only after both keys and the
    lamport amount were accepted locally; it hands the SDK the serialised
    transfer (from the session's account to the typed recipient, the account
    paying the fee) only when the block hash could be read; and it calls
    [signAndSend] only when the prepared response carried [data], passing
    that [data] as it came, the stored secrets and the session's
    [authentication] field.  Every failure ends the flow, which returns; the
    session variables stay as they were. *)
Theorem sol_dialogue (P : platform) (cfg : config) (w : world) (s : state) :
  let x := run (transferSOLArbitrary P cfg) w s in
  sol_run P s (dialogue x w) (result x) /\ final x = s.
Proof.
apply (hp_run unseen heard anything (fun _ => eq_refl) _ (transferSOLArbitrary P cfg) [] w s
         (transferSOLArbitrary_story P cfg s) (anything_goes w)).
Qed.


(** *** The OTP step *)

(** The completion call of [verifyOtp] for the code [otp] and the fresh
    [secrets] (lines 221-247): a new user is described by the email alone,
    a returning one by the stored session when there is one. *)
Definition completion_call (email : string) (isNewUser : bool) (s : state)
    (otp : string) (secrets : value) : call :=
  let minimal := VObject [("email", VText email); ("signers", VArray [])] in
  if isNewUser then completeAuthAndCreateAccount otp secrets minimal
  else completeAuth otp secrets (Js.or (userSession s) minimal).




(** *** The login flow *)











(** A rejection that is no error object makes the login flow throw: its
    [catch] blocks read [error.message] and call [includes] on it. *)

(** A message on which [includes] cannot be called: truthy, and neither a
    string nor an array. *)
Definition wordless (m : value) : Prop :=
  Js.truthy m = true /\
  match m with VText _ | VArray _ => False | _ => True end.

(** What the [catch] block of line 149 throws on the error [e]. *)
Definition escaping (e : value) : value :=
  if Js.nullish e then Js.cannot_read e "message"
  else Js.not_a_function "error.message.includes".

(** X6. When [initAuth] rejects with [null] or [undefined], or with a value
    whose [message] is truthy and neither a string nor an array, the [catch]
    block of the login flow itself throws a TypeError; the flow ends with
    that error uncaught, after the one call, the session variables
    untouched. *)
Theorem odd_rejection_escapes (P : platform) (cfg : config) (s : state) (email : string)
    (lines : list string) (picks : list action) (e : value)
    (rest : list (completion value)) :
  Js.nullish e = true \/ wordless (Js.member e "message") ->
  let x := run (loginOrRegister P cfg)
               {| typed := email :: lines; picked := picks;
                  replies := Throws e :: rest |} s in
  result x = Uncaught (escaping e) /\
  calls (trace x) = [initAuth email] /\
  final x = s.
Proof.
intros He x. subst x.
unfold escaping, loginOrRegister, loginOrRegisterWith, initAuthThenOtp, messageIncludes,
  get, Js.get, await, eval, simpleLog, debugLog, when.
cbn.
destruct (Js.nullish e) eqn:Hn.
- destruct (DEBUG_MODE cfg); repeat run_step; repeat split; reflexivity.
- destruct He as [He | [Ht Hm]]; [discriminate|].
  assert (forall n, Js.includes "error.message.includes" (Js.member e "message") n =
                    Throws (Js.not_a_function "error.message.includes")) as Hi.
  { intros n. destruct (Js.member e "message"); try contradiction; reflexivity. }
  destruct (DEBUG_MODE cfg); repeat first [rewrite Hi | run_step]; repeat split; reflexivity.
Qed.

(** [initAuth] rejecting with [undefined]. *)
Lemma odd_rejection_escapes_witness :
  result (run (loginOrRegister Sample.node Sample.quiet)
              (Sample.script ["a@example.com"] [Throws VUndefined]) initial) =
  Uncaught (Js.TypeError "Cannot read properties of undefined (reading 'message')").
Proof.
apply (odd_rejection_escapes Sample.node Sample.quiet initial "a@example.com" [] []
         VUndefined []).
left. reflexivity.
Defined.

(** ** No error escapes the program

    This holds when the rejections are error objects. *)



















(** ** The handles

    [gridClient] and [solanaConnection] are built once, by
    [initializeGridClient]; no flow builds another. *)


















(** ** The configuration

    The environment name is compared with 'production' to pick the key (line
    27) and with 'sandbox' to pick the cluster (lines 59, 115). *)



(** ** The client initialisation (lines 95-122) *)









(** ** The prompts

    The [validate] callbacks look at the trimmed line; the flows then work
    with the line as typed. *)

Lemma parseFloat_blank (s : string) : Str.trim s = EmptyString -> parseFloat s = Num.NaN.
Proof. intros H. rewrite <- parseFloat_trim, H. reflexivity. Qed.

Lemma validateAmount_trim (line : string) (token : tokenType) :
  validateAmount (Str.trim line) token = validateAmount line token.
Proof. unfold validateAmount. rewrite parseFloat_trim. reflexivity. Qed.

(** X11. The amount prompt accepts exactly the lines that [validateAmount]
    accepts as typed: trimming changes neither the number [parseFloat] reads
    nor the verdict, so the number that was validated is the number the flow
    converts.  A blank line is answered with 'Please enter an amount', any
    other rejected line with the message of [validateAmount]. *)
Theorem amount_prompt (token : tokenType) (line : string) :
  (validateAmountInput token line = Pass <-> valid (validateAmount line token) = true) /\
  validateAmount (Str.trim line) token = validateAmount line token /\
  parseFloat (Str.trim line) = parseFloat line /\
  (Str.trim line = EmptyString ->
     validateAmountInput token line = Fail (Some "Please enter an amount")) /\
  (Str.trim line <> EmptyString -> valid (validateAmount line token) = false ->
     validateAmountInput token line = Fail (error (validateAmount line token))).
Proof.
split; [|split; [apply validateAmount_trim | split; [apply parseFloat_trim | split]]].
- unfold validateAmountInput. rewrite validateAmount_trim.
  destruct (Str.is_empty (Str.trim line)) eqn:Hb.
  + split; [discriminate|]. intros Hv. exfalso.
    unfold validateAmount in Hv. rewrite parseFloat_blank in Hv; [discriminate|].
    destruct (Str.trim line); [reflexivity | discriminate].
  + destruct (valid (validateAmount line token)); split; auto; discriminate.
- intros H. unfold validateAmountInput. rewrite H. reflexivity.
- intros Hne Hv. unfold validateAmountInput. rewrite validateAmount_trim, Hv.
  destruct (Str.trim line); [contradiction | reflexivity].
Qed.

(** X12. The recipient prompt checks the trimmed line, the SOL flow builds its
    key from the line as typed (line 510): a recipient that [PublicKey]
    accepts only once trimmed passes the prompt and then makes the flow fail
    before any call, with '❌ SOL transfer failed:' and the error of
    [PublicKey]. *)
Theorem recipient_as_typed (P : platform) (cfg : config) (s : state)
    (recipient amount : string) (lines : list string) (picks : list action)
    (outcomes : list (completion value)) (e : value) :
  authenticated s ->
  Js.truthy (account s) = true ->
  validateRecipient P recipient = Pass ->
  validateAmountInput SOL amount = Pass ->
  PublicKey_rejects P (account s) = None ->
  PublicKey_rejects P (VText recipient) = Some e ->
  let x := run (transferSOLArbitrary P cfg)
               {| typed := recipient :: amount :: lines; picked := picks;
                  replies := outcomes |} s in
  PublicKey_rejects P (VText (Str.trim recipient)) = None /\
  calls (trace x) = [] /\
  result x = Returned () /\
  In (EConsole Error [VText "❌ SOL transfer failed:"; e]) (trace x).
Proof.
intros [Hsession Hsecrets] Haccount Hrecipient Hamount Hfrom Hto x.
split.
{ unfold validateRecipient, validateSolanaAddress in Hrecipient.
  destruct (Str.is_empty (Str.trim recipient)); [discriminate|].
  destruct (PublicKey_rejects P (Str.trim recipient)); [discriminate | reflexivity]. }
subst x.
pose proof (truthy_not_nullish _ Hsession) as Hnn.
unfold transferSOLArbitrary, accountAddressOf, or_else, get, Js.get,
  newPublicKey, await, eval, account in *.
unfold simpleLog, debugLog, when.
unfold Js.or in Haccount, Hfrom |- *.
cbn. rewrite Hsession, Hsecrets.
destruct (DEBUG_MODE cfg).
all: repeat run_step.
all: try congruence.
all: repeat split; try reflexivity; cbn; auto 20.
Qed.

(** A valid address with a space before it. *)
Lemma recipient_as_typed_witness :
  let padded := " " +:+ Sample.ADDR2 in
  let x := run (transferSOLArbitrary Sample.node Sample.quiet)
               (Sample.script [padded; "1"] []) Sample.logged_in in
  validateRecipient Sample.node padded = Pass /\
  calls (trace x) = [] /\
  result x = Returned ().
Proof.
intros padded x.
destruct (recipient_as_typed Sample.node Sample.quiet Sample.logged_in padded "1" [] [] []
            (Js.Error "Invalid public key input")) as (_ & Hc & Hr & _).
- split; reflexivity.
- reflexivity.
- vm_compute; reflexivity.
- vm_compute; reflexivity.
- vm_compute; reflexivity.
- vm_compute; reflexivity.
- split; [vm_compute; reflexivity | split; assumption].
Defined.

(** ** A session without an address *)

Definition no_address : event :=
  EConsole Error [VText "No account address found in session"].

(** X13. With a session that names no account (neither [smart_account_address]
    nor [address] is truthy) no flow makes a call: the balance flow prints
    'No account address found in session' at once, the two transfer flows
    print it after they have asked for the recipient and the amount. *)
Theorem session_without_address (P : platform) (cfg : config) (s : state)
    (recipient amount : string) (lines : list string)
    (picks : list action) (outcomes : list (completion value)) (w : world) :
  authenticated s ->
  Js.truthy (account s) = false ->
  validateRecipient P recipient = Pass ->
  let typed_in := {| typed := recipient :: amount :: lines; picked := picks;
                     replies := outcomes |} in
  run (checkBalance P) w s =
    {| trace := [no_address]; result := Returned (); final := s; remaining := w |} /\
  (validateAmountInput USDC amount = Pass ->
   run (transferTokens P cfg) typed_in s =
     {| trace := [EAsk "Enter the recipient's Solana address:";
                  EAsk "Enter the amount of USDC to send:"; no_address];
        result := Returned (); final := s;
        remaining := {| typed := lines; picked := picks; replies := outcomes |} |}) /\
  (validateAmountInput SOL amount = Pass ->
   let x := run (transferSOLArbitrary P cfg) typed_in s in
   calls (trace x) = [] /\ result x = Returned () /\ last (trace x) = Some no_address /\
   In (EAsk "Enter the amount of SOL to send:") (trace x)).
Proof.
intros [Hsession Hsecrets] Haccount Hrecipient typed_in. subst typed_in.
pose proof (truthy_not_nullish _ Hsession) as Hnn.
unfold account in Haccount.
split; [|split]; [|intros Hamount..].
all: unfold checkBalance, transferTokens, transferSOLArbitrary, accountAddressOf, or_else,
       get, Js.get, eval, simpleLog, debugLog, when.
all: unfold Js.or in Haccount.
all: cbn; rewrite Hsession, ?Hsecrets.
all: destruct (Js.truthy (Js.member (userSession s) "smart_account_address")) eqn:E;
       [rewrite Haccount in E; discriminate|].
all: destruct (DEBUG_MODE cfg).
all: repeat run_step.
all: try congruence.
all: repeat split; try reflexivity; cbn; auto 20.
Qed.

(** A session that holds a user id only. *)
Lemma session_without_address_witness :
  let s := {| userSession := VObject [("grid_user_id", VText "user-1")];
              sessionSecrets := Sample.secrets |} in
  result (run (checkBalance Sample.node)
              (Sample.script [] [Normal VNull]) s) = Returned () /\
  trace (run (checkBalance Sample.node) (Sample.script [] [Normal VNull]) s) = [no_address].
Proof.
intros s.
destruct (session_without_address Sample.node Sample.quiet s Sample.ADDR2 "1" [] [] []
            (Sample.script [] [Normal VNull])) as (H & _).
- split; reflexivity.
- reflexivity.
- vm_compute; reflexivity.
- rewrite H. split; reflexivity.
Defined.


(** ** Accepted amounts stay in range *)

(** [parseFloat] yields mantissas of at most 53 bits. *)
Lemma div_core_nonneg (p q : positive) :
  0 <= fst (fst (SFdiv_core_binary Num.prec Num.emax (Zpos p) 0 (Zpos q) 0)).
Proof.
unfold SFdiv_core_binary.
set (s := _ - _ - Z.min _ _).
set (m' := match s with Z0 => Zpos p | Zpos _ => Z.shiftl (Zpos p) s | Zneg _ => 0 end).
assert (0 <= m') as Hm.
{ subst m'. destruct s; try lia. apply Z.shiftl_nonneg. lia. }
pose proof (Z_div_mod m' (Zpos q) ltac:(lia)) as H.
destruct (Z.div_eucl m' (Zpos q)) as [q' r]. simpl.
destruct H as [H1 H2]. nia.
Qed.

Lemma of_decimal_fits (neg : bool) (m : N) (e : Z) : fits (Num.of_decimal neg m e).
Proof.
unfold Num.of_decimal. destruct m as [|p]; [exact I|].
destruct (0 <=? e).
- unfold binary_round. destruct (shl_align _ _ _) as [mz ez].
  apply binary_round_aux_fits. lia.
- unfold Num.of_ratio.
  pose proof (div_core_nonneg p (Z.to_pos (10 ^ (- e)))) as H.
  destruct (SFdiv_core_binary _ _ _ _ _ _) as [[q e'] l]. simpl in H.
  apply binary_round_aux_fits, H.
Qed.

Lemma parseFloat_fits (s : string) : fits (parseFloat s).
Proof.
unfold parseFloat. destruct (Lex.scan _) as [[[neg|neg m e] r]|]; try exact I.
apply of_decimal_fits.
Qed.

(** Shifting right, bit by bit. *)
Lemma iter_pos_inv {A : Type} (f : A -> A) (I : Z -> A -> Prop) :
  (forall j x, 0 <= j -> I j x -> I (j + 1) (f x)) ->
  forall p j x, 0 <= j -> I j x -> I (j + Zpos p) (SpecFloat.iter_pos f p x).
Proof.
intros Hf. induction p as [p IH | p IH |]; intros j x Hj Hx; simpl.
- replace (j + Zpos p~1) with (j + 1 + Zpos p + Zpos p) by lia.
  apply IH; [lia|]. apply IH; [lia|]. apply Hf; assumption.
- replace (j + Zpos p~0) with (j + Zpos p + Zpos p) by lia.
  apply IH; [lia|]. apply IH; assumption.
- apply Hf; assumption.
Qed.

Lemma shr_1_spec (mrs : shr_record) :
  0 <= shr_m mrs ->
  shr_m (shr_1 mrs) = shr_m mrs / 2 /\
  shr_r (shr_1 mrs) = Z.odd (shr_m mrs) /\
  shr_s (shr_1 mrs) = shr_r mrs || shr_s mrs.
Proof.
intros Hm. split; [apply shr_1_m, Hm|].
destruct mrs as [m r s]; simpl in *.
destruct m as [|p|p]; try lia; [auto|]. destruct p; auto.
Qed.

(** [mrs] is [m] shifted right by [j] bits, with nothing lost when the bits
    shifted out were zero. *)
Definition shifted (m j : Z) (mrs : shr_record) : Prop :=
  shr_m mrs = m / 2 ^ j /\
  (m mod 2 ^ j = 0 -> shr_r mrs = false /\ shr_s mrs = false).

Lemma shifted_step (m : Z) : 0 <= m ->
  forall j mrs, 0 <= j -> shifted m j mrs -> shifted m (j + 1) (shr_1 mrs).
Proof.
intros Hm j mrs Hj [H1 H2].
assert (0 < 2 ^ j) as Hp by (apply Z.pow_pos_nonneg; lia).
assert (0 <= shr_m mrs) as Hnn by (rewrite H1; apply Z.div_pos; lia).
destruct (shr_1_spec mrs Hnn) as (E1 & E2 & E3).
assert (2 ^ (j + 1) = 2 ^ j * 2) as Hpow by (rewrite Z.pow_add_r by lia; reflexivity).
split.
- rewrite E1, H1, Hpow, Z.div_div by lia. reflexivity.
- intros Hz. rewrite E2, E3, H1.
  assert (m mod 2 ^ j = 0) as Hz'.
  { apply Z.mod_divide in Hz; [|lia]. apply Z.mod_divide; [lia|].
    destruct Hz as [q Hq]. exists (q * 2). lia. }
  destruct (H2 Hz') as [-> ->]. split; [|reflexivity].
  apply Z.mod_divide in Hz; [|lia]. destruct Hz as [q Hq].
  rewrite Hq, Hpow. replace (q * (2 ^ j * 2)) with (q * 2 * 2 ^ j) by lia.
  rewrite Z.div_mul by lia. rewrite Z.odd_mul. simpl. apply andb_false_r.
Qed.

Lemma shr_fexp_spec (m e : Z) :
  0 <= m ->
  exists k, 0 <= k /\
    snd (shr_fexp Num.prec Num.emax m e loc_Exact) = e + k /\
    shifted m k (fst (shr_fexp Num.prec Num.emax m e loc_Exact)) /\
    (k = 0 \/ e + k = fexp Num.prec Num.emax (Zdigits2 m + e)).
Proof.
intros Hm. unfold shr_fexp, shr.
destruct (fexp Num.prec Num.emax (Zdigits2 m + e) - e) as [|p|p] eqn:Hk; simpl.
- exists 0. repeat split; try lia; auto. simpl. rewrite Z.div_1_r. reflexivity.
- exists (Zpos p). split; [lia|]. split; [reflexivity|]. split; [|right; lia].
  apply (iter_pos_inv shr_1 (shifted m) (shifted_step m Hm) p 0); [lia|].
  split; simpl; [rewrite Z.div_1_r; reflexivity | auto].
- exists 0. repeat split; try lia; auto. simpl. rewrite Z.div_1_r. reflexivity.
Qed.

Lemma round_nearest_even_le (m : Z) (l : location) :
  m <= round_nearest_even m l <= m + 1 /\ (l = loc_Exact -> round_nearest_even m l = m).
Proof. destruct l as [|[]]; simpl; try destruct (Z.even m); split; try lia; auto; discriminate. Qed.

(** The number [m * 2^e], with [e <= 0], does not exceed [T]. *)
Definition below (T m e : Z) : Prop := e <= 0 /\ 0 <= m <= T * 2 ^ (- e).

Lemma below_digits (T m e : Z) :
  0 < T < 2 ^ 53 -> below T m e -> Zdigits2 m + e <= 53.
Proof.
intros HT (He & Hm0 & Hm).
assert (0 < 2 ^ (- e)) by (apply Z.pow_pos_nonneg; lia).
assert (m < 2 ^ (53 - e)).
{ replace (53 - e) with (53 + - e) by lia. rewrite Z.pow_add_r by lia. nia. }
assert (Zdigits2 m <= 53 - e) by (apply Zdigits2_bound; lia). lia.
Qed.

Lemma fexp_below (d : Z) : d <= 53 -> fexp Num.prec Num.emax d <= 0.
Proof. unfold fexp, SpecFloat.emin, Num.prec, Num.emax. lia. Qed.

(** Rounding to nearest does not carry a number across [T] when [T] is
    itself representable. *)
Lemma shr_fexp_below (T m e : Z) :
  0 < T < 2 ^ 53 -> below T m e ->
  let x := shr_fexp Num.prec Num.emax m e loc_Exact in
  below T (shr_m (fst x)) (snd x) /\
  below T (round_nearest_even (shr_m (fst x)) (loc_of_shr_record (fst x))) (snd x).
Proof.
intros HT Hb x. subst x.
pose proof (below_digits T m e HT Hb) as Hd.
pose proof (fexp_below _ Hd) as Hf.
destruct Hb as (He & Hm0 & Hm).
destruct (shr_fexp_spec m e Hm0) as (k & Hk & E & [S1 S2] & Hke).
destruct (shr_fexp Num.prec Num.emax m e loc_Exact) as [mrs e']. cbn [fst snd] in *. subst e'.
assert (e + k <= 0) as He' by (destruct Hke as [-> | ->]; [clear - He; lia | exact Hf]).
assert (0 < 2 ^ k) as Hpk by (apply Z.pow_pos_nonneg; lia).
assert (0 < 2 ^ (- (e + k))) as Hpe by (apply Z.pow_pos_nonneg; lia).
assert (2 ^ (- e) = 2 ^ (- (e + k)) * 2 ^ k) as Hsplit
  by (rewrite <- Z.pow_add_r by lia; f_equal; lia).
assert (0 <= m / 2 ^ k) as Hq0 by (apply Z.div_pos; lia).
assert (m / 2 ^ k <= T * 2 ^ (- (e + k))) as Hq.
{ apply Z.div_le_upper_bound; [lia|]. rewrite Hsplit in Hm. lia. }
split; [unfold below; rewrite S1; lia|].
destruct (round_nearest_even_le (shr_m mrs) (loc_of_shr_record mrs)) as [[R1 R2] R3].
unfold below. split; [exact He'|]. split; [lia|].
destruct (Z.eq_dec (m mod 2 ^ k) 0) as [Hz | Hnz].
- destruct (S2 Hz) as [Hr Hs].
  rewrite R3; [rewrite S1; exact Hq|].
  destruct mrs as [mm r s]; simpl in *; subst; reflexivity.
- assert (m / 2 ^ k < T * 2 ^ (- (e + k))) as Hlt.
  { pose proof (Z.div_mod m (2 ^ k) ltac:(lia)) as Hdm.
    pose proof (Z.mod_pos_bound m (2 ^ k) Hpk) as Hmb.
    rewrite Hsplit in Hm. nia. }
  rewrite <- S1 in Hlt. clear - R2 Hlt. lia.
Qed.

Lemma binary_round_aux_below (T m e : Z) :
  0 < T < 2 ^ 53 -> below T m e ->
  exists n, Num.floorZ (binary_round_aux Num.prec Num.emax false m e loc_Exact) = Some n /\
            0 <= n <= T.
Proof.
intros HT Hb. unfold binary_round_aux.
destruct (shr_fexp_below T m e HT Hb) as [_ Hb1].
destruct (shr_fexp Num.prec Num.emax m e loc_Exact) as [mrs' e']. simpl in Hb1.
destruct (shr_fexp_below T _ e' HT Hb1) as [Hb2 _].
destruct (shr_fexp Num.prec Num.emax _ e' loc_Exact) as [mrs'' e'']. simpl in Hb2.
destruct Hb2 as (He & Hm0 & Hm).
destruct (shr_m mrs'') as [|p|p]; try lia.
- exists 0. split; [reflexivity | lia].
- replace (e'' <=? Num.emax - Num.prec) with true
    by (symmetry; apply Z.leb_le; unfold Num.emax, Num.prec; lia).
  unfold Num.floorZ, Num.signed, cond_Zopp.
  assert (0 < 2 ^ (- e'')) by (apply Z.pow_pos_nonneg; lia).
  destruct (0 <=? e'') eqn:E.
  + apply Z.leb_le in E. replace e'' with 0 in * by lia. simpl in Hm.
    exists (Zpos p * 2 ^ 0). split; [reflexivity|]. simpl. lia.
  + exists (Zpos p / 2 ^ (- e'')). split; [reflexivity|].
    split; [apply Z.div_pos; lia | apply Z.div_le_upper_bound; lia].
Qed.

(** What [validateAmount] lets through is a positive finite number that is
    not above the token's maximum. *)
Definition maximum (token : tokenType) : float :=
  match token with USDC => Num.lit 1000000 | SOL => Num.lit 10000 end.

Lemma accepted_number (amount : string) (token : tokenType) :
  valid (validateAmount amount token) = true ->
  exists m e, parseFloat amount = S754_finite false m e /\
              Num.gt (parseFloat amount) (maximum token) = false.
Proof.
unfold validateAmount.
destruct (parseFloat amount) as [sg|sg| |sg m e];
  try (destruct sg, token; intros H; vm_compute in H; discriminate H).
- intros H; vm_compute in H; discriminate H.
- destruct sg; [intros H; discriminate H|]. change (Num.le _ _) with false. cbn [Num.isNaN].
  intros H. exists m, e. split; [reflexivity|].
  destruct token; cbn [maximum];
    destruct (Num.gt (S754_finite false m e) _); try reflexivity; discriminate.
Qed.

(** A number of at most 53 bits that is not above [mc * 2^ec], a normal
    number, has an exponent of at most [ec] and is below it in value. *)
Lemma not_above (m mc : positive) (e ec T : Z) :
  Zpos m < 2 ^ 53 -> 2 ^ 52 <= Zpos mc -> ec <= 0 -> Zpos mc = T * 2 ^ (- ec) ->
  Num.gt (S754_finite false m e) (S754_finite false mc ec) = false ->
  below T (Zpos m) e.
Proof.
intros Hm Hmc Hec HT. unfold Num.gt, SFltb, SFcompare.
assert (0 < 2 ^ (- ec)) as Hpc by (apply Z.pow_pos_nonneg; lia).
assert (0 < T) as HT0 by nia.
destruct (Z.compare_spec ec e) as [<- | Hlt | Hgt]; try discriminate.
- destruct (Pos.compare_cont Eq mc m) eqn:Hc; try discriminate; intros _.
  + apply Pos.compare_eq in Hc. subst. unfold below. lia.
  + change (Pos.compare_cont Eq mc m) with (Pos.compare mc m) in Hc.
    apply Pos.compare_gt_iff in Hc. unfold below. lia.
- intros _. unfold below. split; [lia|]. split; [lia|].
  replace (- e) with (- ec + (ec - e)) by lia. rewrite Z.pow_add_r by lia.
  assert (2 <= 2 ^ (ec - e)).
  { change 2 with (2 ^ 1) at 1. apply Z.pow_le_mono_r; lia. }
  change (2 ^ 53) with (2 * 2 ^ 52) in Hm. nia.
Qed.

Lemma product_below (m my : positive) (e ey T U : Z) :
  below T (Zpos m) e -> ey <= 0 -> Zpos my = U * 2 ^ (- ey) -> 0 <= U ->
  below (T * U) (Zpos m * Zpos my) (e + ey).
Proof.
intros (He & _ & Hm) Hey Hmy HU. unfold below. split; [lia|]. split; [lia|].
replace (- (e + ey)) with (- e + - ey) by lia. rewrite Z.pow_add_r by lia.
rewrite Hmy.
assert (0 < 2 ^ (- ey)) by (apply Z.pow_pos_nonneg; lia).
assert (0 < 2 ^ (- e)) by (apply Z.pow_pos_nonneg; lia).
nia.
Qed.

(** The number of base units a flow sends for an amount of [token]:
    [Math.floor(parseFloat(amount) * 1000000)] for USDC (line 356),
    [Math.floor(parseFloat(amount) * LAMPORTS_PER_SOL)] for SOL (line 511). *)
Definition unitsOf (token : tokenType) (amount : string) : float :=
  match token with USDC => baseUnits amount | SOL => lamportsOf amount end.

Definition most (token : tokenType) : Z :=
  match token with USDC => 10 ^ 12 | SOL => 10 ^ 13 end.

(** X14. An amount that the amount prompt of a transfer flow accepts is sent
    as a whole number of base units that is never negative and never more than
    the token's maximum: at most 10^12 base units (1,000,000 USDC) in the USDC
    flow and at most 10^13 lamports (10,000 SOL) in the SOL flow.  The double
    rounding of parsing and of the product never carries an accepted amount
    above the maximum, and never yields NaN, an infinity or a fraction. *)
Theorem accepted_amount_in_range (token : tokenType) (amount : string) :
  validateAmountInput token amount = Pass ->
  exists n, Num.to_Z (unitsOf token amount) = Some n /\ 0 <= n <= most token.
Proof.
unfold validateAmountInput.
destruct (Str.is_empty (Str.trim amount)); [discriminate|]. cbn zeta.
destruct (valid (validateAmount (Str.trim amount) token)) eqn:Hv; [intros _ | discriminate].
apply accepted_number in Hv. rewrite parseFloat_trim in Hv.
destruct Hv as (m & e & Hx & Hcap).
pose proof (parseFloat_fits amount) as Hfit. rewrite Hx in Hfit, Hcap. simpl in Hfit.
assert (Num.to_Z (unitsOf token amount) = Num.floorZ
          (Num.mul (parseFloat amount)
             (match token with USDC => Num.lit 1000000 | SOL => LAMPORTS_PER_SOL end))) as ->
  by (destruct token; apply floor_exact, mul_fits).
rewrite Hx. destruct token.
- change (maximum USDC) with (S754_finite false 8589934592000000 (-33)) in Hcap.
  change (Num.lit 1000000) with (S754_finite false 8589934592000000 (-33)).
  apply (not_above _ _ _ _ (10 ^ 6)) in Hcap; [|lia|lia|lia|reflexivity].
  apply (binary_round_aux_below (10 ^ 12)); [lia|].
  apply (product_below _ _ _ _ (10 ^ 6) (10 ^ 6)); [exact Hcap|lia|reflexivity|lia].
- change (maximum SOL) with (S754_finite false 5497558138880000 (-39)) in Hcap.
  change LAMPORTS_PER_SOL with (S754_finite false 8388608000000000 (-23)).
  apply (not_above _ _ _ _ (10 ^ 4)) in Hcap; [|lia|lia|lia|reflexivity].
  apply (binary_round_aux_below (10 ^ 13)); [lia|].
  apply (product_below _ _ _ _ (10 ^ 4) (10 ^ 9)); [exact Hcap|lia|reflexivity|lia].
Qed.

Lemma accepted_amount_in_range_witness :
  validateAmountInput USDC " 1000000 " = Pass /\
  exists n, Num.to_Z (unitsOf USDC " 1000000 ") = Some n /\ 0 <= n <= most USDC.
Proof.
split; [vm_compute; reflexivity|].
apply accepted_amount_in_range. vm_compute. reflexivity.
Defined.


(** ** What the balance flow prints *)

(** The balance of a token entry (line 297). *)
Definition balanceOf (P : platform) (token : value) : value :=
  Js.or (Js.member token "amount_decimal")
    (VNumber (Num.div (Js.ToNumber P (Js.member token "amount"))
                      (Math_pow P (Num.lit 10)
                         (Js.ToNumber P (Js.or (Js.member token "decimals")
                                               (VNumber (Num.lit 6))))))).

(** The line of a token entry (line 298). *)
Definition token_args (P : platform) (token : value) : list value :=
  [Js.template P ["  "; Js.or (Js.member token "symbol") "Unknown"; ": ";
                  balanceOf P token;
                  " ("; Js.or (Js.member token "name") "Unknown token"; ")"]].

Definition token_line (P : platform) (token : value) : event :=
  EConsole Log (token_args P token).

(** The closing line of the listing (lines 301-307). *)
Definition usdc_line (P : platform) (tokens : list value) : event :=
  match find (fun b => Js.is_text "USDC" (Js.member b "symbol")) tokens with
  | Some b =>
      EConsole Log [Js.template P [VText (Str.lf +:+ "💰 Your USDC balance is: ");
                                   balanceOf P b; " USDC"]]
  | None => EConsole Log [VText (Str.lf +:+ "⚠️ No USDC balance found for this account.")]
  end.

(** The line for the SOL balance (lines 313-315). *)
Definition sol_line (P : platform) (data : value) : list event :=
  if Js.truthy (Js.opt data "sol")
  then [EConsole Log [Js.template P ["SOL balance: "; Js.opt data "sol"; " SOL"]]]
  else [].

Definition listing (P : platform) (tokens : list value) : list event :=
  EConsole Log [Js.template P ["Found "; Js.of_nat (length tokens); " token(s):"]]
  :: map (token_line P) tokens ++ [usdc_line P tokens].

Definition entry (token : value) : Prop := Js.nullish token = false.

Lemma tokenBalance_balanceOf (P : platform) (token : value) :
  entry token -> tokenBalance P token = Ret (balanceOf P token).
Proof.
intros H. unfold tokenBalance, or_else, balanceOf, Js.or. rewrite !get_member by exact H.
cbn [mbind prog_bind bind]. destruct (Js.truthy (Js.member token "amount_decimal")); reflexivity.
Qed.

(** A run of console lines. *)
Fixpoint say {A : Type} (lines : list (channel * list value)) (k : prog A) : prog A :=
  match lines with
  | [] => k
  | (ch, args) :: rest => Console ch args (say rest k)
  end.

Definition shown (line : channel * list value) : event := EConsole (fst line) (snd line).

Lemma bind_say {A B : Type} (f : A -> prog B) (lines : list (channel * list value))
    (k : prog A) :
  bind f (say lines k) = say lines (bind f k).
Proof. induction lines as [|[ch args] rest IH]; simpl; [|rewrite IH]; reflexivity. Qed.

Lemma try_catch_say {A : Type} (h : value -> prog A) (lines : list (channel * list value))
    (k : prog A) :
  try_catch (say lines k) h = say lines (try_catch k h).
Proof. induction lines as [|[ch args] rest IH]; simpl; [|rewrite IH]; reflexivity. Qed.

Lemma run_say {A : Type} (lines : list (channel * list value)) (k : prog A)
    (w : world) (s : state) :
  run (say lines k) w s = emit (map shown lines) (run k w s).
Proof.
induction lines as [|[ch args] rest IH]; simpl.
- destruct (run k w s); reflexivity.
- rewrite IH. unfold emit. reflexivity.
Qed.

Lemma printToken_says (P : platform) (token : value) :
  entry token -> printToken P token = say [(Log, token_args P token)] (Ret ()).
Proof.
intros H. unfold printToken. rewrite tokenBalance_balanceOf, !get_member by exact H.
reflexivity.
Qed.

Lemma forEach_says (P : platform) (tokens : list value) :
  Forall entry tokens ->
  forEach (printToken P) tokens =
  say (map (fun token => (Log, token_args P token)) tokens) (Ret ()).
Proof.
induction 1 as [|token rest H _ IH]; [reflexivity|].
cbn [forEach map]. rewrite printToken_says by exact H. rewrite IH. reflexivity.
Qed.

Lemma findUSDC_find (tokens : list value) :
  Forall entry tokens ->
  findUSDC tokens =
  Ret (match find (fun b => Js.is_text "USDC" (Js.member b "symbol")) tokens with
       | Some b => b
       | None => VUndefined
       end).
Proof.
induction 1 as [|token rest H _ IH]; [reflexivity|].
cbn [findUSDC find]. rewrite get_member by exact H. cbn [mbind prog_bind bind].
destruct (Js.is_text "USDC" (Js.member token "symbol")); [reflexivity | exact IH].
Qed.

Lemma found_truthy (tokens : list value) (b : value) :
  find (fun b => Js.is_text "USDC" (Js.member b "symbol")) tokens = Some b ->
  Js.truthy b = true /\ entry b.
Proof.
intros H. apply find_some in H. destruct H as [_ H].
destruct b as [| |?|?|?|l|fs]; try discriminate H; split; reflexivity.
Qed.

(** X15. A successful balance response whose [data.tokens] is an array of
    entries is printed in full and in order: the line that names the account,
    the call, 'Found n token(s):' with the length of the array, one line per
    entry, then the USDC summary, which shows the first entry whose symbol is
    exactly 'USDC' (or says that there is none, as it does for an empty
    array), and last the SOL line when [data.sol] is truthy.  The flow
    returns. *)
Theorem balance_listing (P : platform) (w : world) (s : state) (response : value)
    (tokens : list value) (rest : list (completion value)) :
  Js.truthy (userSession s) = true ->
  Js.truthy (account s) = true ->
  replies w = Normal response :: rest ->
  Js.truthy (Js.member response "success") = true ->
  Js.opt (Js.member response "data") "tokens" = VArray tokens ->
  Forall entry tokens ->
  let x := run (checkBalance P) w s in
  trace x =
    EConsole Log [Js.template P ["Fetching balance for account: "; account s]]
    :: ECall (getAccountBalances (account s))
    :: listing P tokens ++ sol_line P (Js.member response "data") /\
  result x = Returned ().
Proof.
intros Hs Ha Hw Hok Htokens Hentries.
assert (Js.nullish response = false) as Hr.
{ destruct response; try reflexivity; discriminate Hok. }
unfold checkBalance.
repeat first
  [ progress cbn [mbind prog_bind bind read try_catch run console await eval negb Js.truthy]
  | rewrite accountAddressOf_account by exact Hs
  | rewrite get_member by exact Hr
  | rewrite Hs | rewrite Ha | rewrite Hw | rewrite Hok | rewrite Htokens ].
unfold printTokens.
rewrite forEach_says, findUSDC_find by exact Hentries.
cbn [mbind prog_bind bind console try_catch run].
rewrite !bind_say, try_catch_say, run_say.
unfold listing, usdc_line, sol_line, token_line, shown. rewrite map_map. cbn [fst snd].
destruct (find _ tokens) as [b|] eqn:Hfind; cbn [mbind prog_bind bind].
- destruct (found_truthy tokens b Hfind) as [Hb He]. rewrite Hb.
  rewrite tokenBalance_balanceOf by exact He.
  cbn [mbind prog_bind bind console try_catch run].
  destruct (Js.truthy (Js.opt (Js.member response "data") "sol"));
    cbn [when console try_catch run emit trace result stop Js.member String.eqb Ascii.eqb Bool.eqb];
    rewrite ?app_nil_r; (split; [|reflexivity]); cbn [app]; rewrite <- ?app_assoc; reflexivity.
- cbn [Js.truthy mbind prog_bind bind console try_catch run].
  destruct (Js.truthy (Js.opt (Js.member response "data") "sol"));
    cbn [when console try_catch run emit trace result stop Js.member String.eqb Ascii.eqb Bool.eqb];
    rewrite ?app_nil_r; (split; [|reflexivity]); cbn [app]; rewrite <- ?app_assoc; reflexivity.
Qed.

Lemma balance_listing_witness :
  let response :=
    VObject [("success", VBool true);
             ("data", VObject [("tokens",
                        VArray [VObject [("symbol", VText "SOL");
                                         ("amount_decimal", VNumber (Num.lit 2))];
                                VObject [("symbol", VText "USDC");
                                         ("amount_decimal", VNumber (Num.lit 5))]])])] in
  let x := run (checkBalance Sample.node)
               {| typed := []; picked := []; replies := [Normal response] |}
               Sample.logged_in in
  length (trace x) = 6%nat /\ result x = Returned ().
Proof.
intros response x.
destruct (balance_listing Sample.node
            {| typed := []; picked := []; replies := [Normal response] |}
            Sample.logged_in response
            [VObject [("symbol", VText "SOL"); ("amount_decimal", VNumber (Num.lit 2))];
             VObject [("symbol", VText "USDC"); ("amount_decimal", VNumber (Num.lit 5))]]
            []) as [Ht Hres]; try reflexivity.
- repeat constructor.
- split; [|exact Hres]. fold x in Ht. rewrite Ht. reflexivity.
Defined.


(** ** Programs that differ in what they print

    [alike E p q]: the programs [p] and [q] do the same things in the same
    order (they ask, call, construct and write alike and end alike) and
    differ at most in their console output and, where they throw, in the
    value thrown, which [E] relates. *)

Inductive alike {A : Type} (E : value -> value -> Prop) : prog A -> prog A -> Prop :=
| alike_ret a : alike E (Ret a) (Ret a)
| alike_throw e e' : E e e' -> alike E (Throw e) (Throw e')
| alike_exit c : alike E (Exit c) (Exit c)
| alike_left ch args k q : alike E k q -> alike E (Console ch args k) q
| alike_right ch args p k : alike E p k -> alike E p (Console ch args k)
| alike_prompt q k k' :
    (forall a, validate q a = Pass -> alike E (k a) (k' a)) ->
    alike E (Prompt q k) (Prompt q k')
| alike_menu k k' : (forall a, alike E (k a) (k' a)) -> alike E (Menu k) (Menu k')
| alike_await c k k' : (forall r, alike E (k r) (k' r)) -> alike E (Await c k) (Await c k')
| alike_new h k k' : alike E k k' -> alike E (New h k) (New h k')
| alike_read k k' : (forall s, alike E (k s) (k' s)) -> alike E (Read k) (Read k')
| alike_session v k k' : alike E k k' -> alike E (WriteSession v k) (WriteSession v k')
| alike_secrets v k k' : alike E k k' -> alike E (WriteSecrets v k) (WriteSecrets v k').

Lemma alike_refl {A : Type} (E : value -> value -> Prop) (p : prog A) :
  (forall e, E e e) -> alike E p p.
Proof.
intros HE. induction p;
  first [ apply alike_left, alike_right; assumption | constructor; auto ].
Qed.

Lemma alike_mono {A : Type} (E E' : value -> value -> Prop) (p q : prog A) :
  (forall e e', E e e' -> E' e e') -> alike E p q -> alike E' p q.
Proof. intros HE. induction 1; constructor; auto. Qed.

Lemma alike_bind {A B : Type} (E : value -> value -> Prop) (f f' : A -> prog B)
    (p p' : prog A) :
  alike E p p' -> (forall a, alike E (f a) (f' a)) -> alike E (bind f p) (bind f' p').
Proof. intros Hp Hf. induction Hp; simpl; try (constructor; auto); auto. Qed.

Lemma alike_try_catch {A : Type} (E E' : value -> value -> Prop) (h h' : value -> prog A)
    (p p' : prog A) :
  alike E' p p' -> (forall e e', E' e e' -> alike E (h e) (h' e')) ->
  alike E (try_catch p h) (try_catch p' h').
Proof. intros Hp Hh. induction Hp; simpl; try (constructor; auto); auto. Qed.

(** What a trace shows apart from the console output. *)
Definition printed (e : event) : bool :=
  match e with EConsole _ _ => true | _ => false end.

Definition deeds (tr : list event) : list event := filter (fun e => negb (printed e)) tr.

Definition ends_alike {A : Type} (E : value -> value -> Prop) (o o' : outcome A) : Prop :=
  match o, o' with
  | Returned a, Returned a' => a = a'
  | Uncaught e, Uncaught e' => E e e'
  | Exited c, Exited c' => c = c'
  | Waiting, Waiting => True
  | _, _ => False
  end.

Lemma deeds_app (a b : list event) : deeds (a ++ b) = deeds a ++ deeds b.
Proof. apply filter_app. Qed.

(** Programs that are alike run alike in every environment. *)
Lemma alike_run {A : Type} (E : value -> value -> Prop) (p q : prog A) :
  alike E p q ->
  forall w s,
    deeds (trace (run p w s)) = deeds (trace (run q w s)) /\
    ends_alike E (result (run p w s)) (result (run q w s)) /\
    final (run p w s) = final (run q w s) /\
    remaining (run p w s) = remaining (run q w s).
Proof.
induction 1; intros w s0; cbn [run emit stop trace result final remaining];
  rewrite ?deeds_app.
- repeat split; reflexivity.
- repeat split; [assumption].
- repeat split; reflexivity.
- apply IHalike.
- apply IHalike.
- destruct (ask (validate q) (typed w)) as [evs [[a rest]|]] eqn:Hask;
    cbn [run emit stop trace result final remaining].
  + pose proof (ask_passes (validate q) (typed w)) as Hpass. rewrite Hask in Hpass.
    destruct (Hpass a rest eq_refl) as [Ha _].
    destruct (H0 a Ha (set_typed w rest) s0) as (Hd & ? & ? & ?).
    change (EAsk (message q) :: evs ++ ?t) with ((EAsk (message q) :: evs) ++ t).
    rewrite !deeds_app, Hd. repeat split; assumption.
  + repeat split; reflexivity.
- destruct (picked w) as [|a rest]; cbn [run emit stop trace result final remaining];
    [repeat split; reflexivity|].
  destruct (H0 a (set_picked w rest) s0) as (Hd & ? & ? & ?).
  rewrite !deeds_app, Hd. repeat split; assumption.
- destruct (replies w) as [|r rest]; cbn [run emit stop trace result final remaining];
    [repeat split; reflexivity|].
  destruct (H0 r (set_replies w rest) s0) as (Hd & ? & ? & ?).
  rewrite !deeds_app, Hd. repeat split; assumption.
- destruct (IHalike w s0) as (Hd & ? & ? & ?). rewrite Hd. repeat split; assumption.
- apply H0.
- destruct (IHalike w (set_session s0 v)) as (Hd & ? & ? & ?).
  rewrite Hd. repeat split; assumption.
- destruct (IHalike w (set_secrets s0 v)) as (Hd & ? & ? & ?).
  rewrite Hd. repeat split; assumption.
Qed.

(** A program that only prints: it amounts to a run of console lines. *)
Inductive silent : prog () -> Prop :=
| silent_ret : silent (Ret ())
| silent_console ch args k : silent k -> silent (Console ch args k).

Lemma silent_bind (f : () -> prog ()) (p : prog ()) :
  silent p -> silent (f ()) -> silent (bind f p).
Proof. intros Hp Hf. induction Hp; simpl; [exact Hf | constructor; assumption]. Qed.

Lemma silent_says (p : prog ()) : silent p -> exists lines, p = say lines (Ret ()).
Proof.
induction 1 as [|ch args k _ [lines ->]].
- exists []. reflexivity.
- exists ((ch, args) :: lines). reflexivity.
Qed.

Lemma silent_forEachIndexed {A : Type} (f : nat -> A -> prog ()) (l : list A) :
  (forall i x, silent (f i x)) -> forall i, silent (forEachIndexed f i l).
Proof.
intros Hf. induction l as [|x r IH]; intros i; simpl; [constructor|].
apply silent_bind; [apply Hf | apply IH].
Qed.

Lemma alike_say_left {A : Type} (E : value -> value -> Prop)
    (lines : list (channel * list value)) (p q : prog A) :
  alike E p q -> alike E (say lines p) q.
Proof. intros H. induction lines as [|[ch args] rest IH]; simpl; [|constructor]; assumption. Qed.

Lemma alike_say_right {A : Type} (E : value -> value -> Prop)
    (lines : list (channel * list value)) (p q : prog A) :
  alike E p q -> alike E p (say lines q).
Proof. intros H. induction lines as [|[ch args] rest IH]; simpl; [|constructor]; assumption. Qed.

Ltac silent_step :=
  lazymatch goal with
  | |- forall _, _ => intro
  | |- silent ?p =>
      lazymatch p with
      | _ ≫= _ => unfold mbind, prog_bind
      | Ret _ => apply silent_ret
      | Console _ _ _ => apply silent_console
      | bind _ _ => apply silent_bind
      | forEachIndexed _ _ _ => apply silent_forEachIndexed
      | if ?b then _ else _ => destruct b
      | match ?x with _ => _ end => destruct x
      | Throw _ => fail
      | eval _ => fail
      | get _ _ => fail
      | Exit _ => fail
      | Prompt _ _ => fail
      | Menu _ => fail
      | Await _ _ => fail
      | New _ _ => fail
      | Read _ => fail
      | WriteSession _ _ => fail
      | WriteSecrets _ _ => fail
      | try_catch _ _ => fail
      | _ => open_head p
      end
  end.

(** Replaces the part [x] of the goal, when it only prints, by a run of
    console lines, floated to the front. *)
Ltac lift_out x :=
  lazymatch x with
  | if _ then _ else _ => idtac
  | match _ with _ => _ end => idtac
  | forEachIndexed _ _ _ => idtac
  end;
  lazymatch type of x with
  | prog () =>
      let H := fresh in
      assert (silent x) as H by (solve [repeat silent_step]);
      apply silent_says in H; destruct H as [? H]; rewrite H; clear H;
      rewrite ?bind_say, ?try_catch_say
  end.

(** *** The flows with debugging on and off *)

(** The configuration [cfg] with its debug flag set to [d]. *)
Definition debugging (cfg : config) (d : bool) : config :=
  {| GRID_ENVIRONMENT := GRID_ENVIRONMENT cfg;
     GRID_BASE_URL := GRID_BASE_URL cfg;
     GRID_API_KEY := GRID_API_KEY cfg;
     DEBUG_MODE := d |}.

Ltac inner p :=
  lazymatch p with
  | bind _ ?q => inner q
  | mbind _ ?q => inner q
  | try_catch ?q _ => inner q
  | _ => p
  end.

Ltac enter_both x :=
  lazymatch x with
  | accountAddressOf _ => unfold accountAddressOf, or_else
  | signingContext _ => unfold signingContext, or_else
  | _ => enter x
  end.

Ltac known :=
  match goal with
  | H : alike _ ?x _ |- alike _ ?x _ => exact H
  | H : forall a b, alike _ (?f a b) _ |- alike _ (?f _ _) _ => apply H
  | |- alike _ ?x ?x => is_var x; apply alike_refl; intros; reflexivity
  end.

(** Passing over a part that is known to be alike on both sides. *)
Ltac pass :=
  lazymatch goal with
  | |- alike _ (_ ≫= _) _ => unfold mbind, prog_bind; pass
  | |- alike _ (bind _ _) (bind _ _) => apply alike_bind; [pass | intro]
  | |- alike _ (try_catch _ _) (try_catch _ _) =>
      eapply alike_try_catch; [pass | intros ? ? ->]
  | |- _ => known
  end.

Ltac alike_step :=
  lazymatch goal with
  | |- forall _, _ => intro
  | |- alike _ ?p ?q =>
      first
        [ progress cbn [mbind prog_bind bind try_catch eval when console await read prompt menu
                        construct negb debugLog simpleLog DEBUG_MODE debugging]
        | lazymatch p with
          | Console _ _ _ => apply alike_left
          | say _ _ => apply alike_say_left
          | _ =>
              lazymatch q with
              | Console _ _ _ => apply alike_right
              | say _ _ => apply alike_say_right
              end
          end
        | lazymatch p with
          | Ret _ => apply alike_ret
          | Throw _ => apply alike_throw; reflexivity
          | Exit _ => apply alike_exit
          | Prompt _ _ => apply alike_prompt; intros ? ?
          | Menu _ => apply alike_menu; intro
          | Await _ _ => apply alike_await; intro
          | New _ _ => apply alike_new
          | Read _ => apply alike_read; intro
          | WriteSession _ _ => apply alike_session
          | WriteSecrets _ _ => apply alike_secrets
          end
        | pass
        | let x := inner p in lift_out x
        | let x := inner q in lift_out x
        | let x := inner p in enter_both x
        | let x := inner q in enter_both x ]
  end.

Lemma verifyOtp_alike (P : platform) (cfg : config) (email : string) (isNewUser : bool) :
  alike eq (verifyOtp P (debugging cfg true) email isNewUser)
           (verifyOtp P (debugging cfg false) email isNewUser).
Proof. unfold verifyOtp. repeat alike_step. Qed.

Lemma loginOrRegister_alike (P : platform) (cfg : config) :
  alike eq (loginOrRegister P (debugging cfg true)) (loginOrRegister P (debugging cfg false)).
Proof.
unfold loginOrRegister.
pose proof (verifyOtp_alike P cfg) as Hstep.
generalize dependent (verifyOtp P (debugging cfg true)).
generalize dependent (verifyOtp P (debugging cfg false)).
intros step' step Hstep.
unfold loginOrRegisterWith, initAuthThenOtp, register, retryLogin, initAuthThenOtp.
repeat alike_step.
Qed.

Lemma transferTokens_alike (P : platform) (cfg : config) :
  alike eq (transferTokens P (debugging cfg true)) (transferTokens P (debugging cfg false)).
Proof. unfold transferTokens. repeat alike_step. Qed.

Lemma transferSOLArbitrary_alike (P : platform) (cfg : config) :
  alike eq (transferSOLArbitrary P (debugging cfg true))
           (transferSOLArbitrary P (debugging cfg false)).
Proof. unfold transferSOLArbitrary. repeat alike_step. Qed.

Lemma initializeGridClient_alike (P : platform) (cfg : config) :
  alike eq (initializeGridClient P (debugging cfg true))
           (initializeGridClient P (debugging cfg false)).
Proof. unfold initializeGridClient. repeat alike_step. Qed.

Lemma mainMenu_alike (P : platform) (cfg : config) (rounds : nat) :
  alike eq (mainMenu P (debugging cfg true) rounds) (mainMenu P (debugging cfg false) rounds).
Proof.
induction rounds as [|n IH]; [apply alike_ret|].
cbn [mainMenu]. unfold menuRound, dispatch.
pose proof (loginOrRegister_alike P cfg) as Hlogin.
pose proof (transferTokens_alike P cfg) as Husdc.
pose proof (transferSOLArbitrary_alike P cfg) as Hsol.
revert IH Hlogin Husdc Hsol.
generalize (mainMenu P (debugging cfg true) n) (mainMenu P (debugging cfg false) n)
           (loginOrRegister P (debugging cfg true)) (loginOrRegister P (debugging cfg false))
           (transferTokens P (debugging cfg true)) (transferTokens P (debugging cfg false))
           (transferSOLArbitrary P (debugging cfg true))
           (transferSOLArbitrary P (debugging cfg false))
           (checkBalance P).
intros. repeat alike_step.
Qed.

Lemma main_alike (P : platform) (cfg : config) (rounds : nat) :
  alike eq (main P (debugging cfg true) rounds) (main P (debugging cfg false) rounds).
Proof.
unfold main.
pose proof (initializeGridClient_alike P cfg) as Hinit.
pose proof (mainMenu_alike P cfg rounds) as Hmenu.
revert Hinit Hmenu.
generalize (mainMenu P (debugging cfg true) rounds) (mainMenu P (debugging cfg false) rounds)
           (initializeGridClient P (debugging cfg true))
           (initializeGridClient P (debugging cfg false)).
intros. repeat alike_step.
Qed.

Lemma alike_sym {A : Type} (E : value -> value -> Prop) (p q : prog A) :
  alike E p q -> alike (fun a b => E b a) q p.
Proof. induction 1; constructor; auto. Qed.

Lemma main_alike_any (P : platform) (cfg : config) (rounds : nat) (d d' : bool) :
  alike eq (main P (debugging cfg d) rounds) (main P (debugging cfg d') rounds).
Proof.
destruct d, d'; try (apply alike_refl; reflexivity).
- apply main_alike.
- eapply alike_mono; [|apply alike_sym, main_alike]. intros e e' H. symmetry. exact H.
Qed.

Lemma ends_alike_eq {A : Type} (o o' : outcome A) : ends_alike eq o o' -> o = o'.
Proof. destruct o, o'; simpl; intros H; try contradiction; subst; reflexivity. Qed.

(** The configuration read from [env] and [argv] is the one read from any
    other command line and any environment that differs in [DEBUG] only,
    but for the debug flag. *)
Lemma load_config_debugging (env env' : gmap string string) (argv argv' : list string) :
  (forall k, k <> "DEBUG" -> env !! k = env' !! k) ->
  load_config env' argv' =
  debugging (load_config env argv) (DEBUG_MODE (load_config env' argv')).
Proof.
intros H. unfold load_config, debugging, env_or.
cbn [GRID_ENVIRONMENT GRID_BASE_URL GRID_API_KEY DEBUG_MODE].
rewrite <- !H by discriminate. reflexivity.
Qed.

Lemma debugging_self (cfg : config) : cfg = debugging cfg (DEBUG_MODE cfg).
Proof. destruct cfg; reflexivity. Qed.

(** X16. Debugging changes what the program prints and nothing else.  Two
    runs of the program against the same user input and the same replies,
    started with any two command lines and with process environments that
    differ at most in [DEBUG], ask the same questions, make the same calls
    with the same arguments in the same order, build the same handles, write
    the same session values, consume the same input and end with the same
    result in the same state: their traces differ in console lines only.
    (Responses and errors are plain data, as everywhere here.) *)
Theorem debug_prints_only (P : platform) (env env' : gmap string string)
    (argv argv' : list string) (rounds : nat) (w : world) (s : state) :
  (forall k, k <> "DEBUG" -> env !! k = env' !! k) ->
  let x := run (script P env argv rounds) w s in
  let y := run (script P env' argv' rounds) w s in
  deeds (trace x) = deeds (trace y) /\
  result x = result y /\
  final x = final y /\
  remaining x = remaining y.
Proof.
intros H x y.
assert (alike eq (script P env argv rounds) (script P env' argv' rounds)) as Halike.
{ unfold script. cbv zeta.
  rewrite (load_config_debugging env env' argv argv' H).
  generalize (DEBUG_MODE (load_config env' argv')). intros d'.
  generalize (load_config env argv). intros cfg.
  cbn [GRID_API_KEY GRID_ENVIRONMENT debugging].
  destruct (key_missing (GRID_API_KEY cfg)).
  - apply alike_refl. reflexivity.
  - replace (main P cfg rounds) with (main P (debugging cfg (DEBUG_MODE cfg)) rounds)
      by (rewrite <- debugging_self; reflexivity).
    apply main_alike_any. }
destruct (alike_run eq _ _ Halike w s) as (Hd & Ho & Hf & Hr).
repeat split; try assumption. apply ends_alike_eq, Ho.
Qed.

Lemma debug_prints_only_witness :
  let env : gmap string string := {[ "GRID_SANDBOX_API_KEY" := "0123456789abcdefghij" ]} in
  let x := run (script Sample.node env [] 2) (Sample.script [] []) initial in
  let y := run (script Sample.node (<["DEBUG" := "true"]> env) ["--debug"] 2)
               (Sample.script [] []) initial in
  deeds (trace x) = deeds (trace y) /\ result x = result y.
Proof.
intros env x y.
destruct (debug_prints_only Sample.node env (<["DEBUG" := "true"]> env) [] ["--debug"] 2
            (Sample.script [] []) initial) as (Hd & Ho & _).
- intros k Hk. symmetry. apply lookup_insert_ne. congruence.
- split; assumption.
Defined.


(** ** A completion that resolves with nothing *)

(** X17. The OTP step prints 'Login successful!' (for a new user,
    'Registration successful!') as soon as the completion call resolves,
    before it looks at the response: when the response is falsy the step
    prints that line, then reports 'OTP verification failed:' with the error
    'Authentication completed, but no session data was returned.', keeps the
    fresh secrets and leaves [userSession] as it was. *)
Theorem successful_before_checked (P : platform) (cfg : config) (email otp : string)
    (isNewUser : bool) (lines : list string) (picks : list action)
    (secrets response : value) (rest : list (completion value)) (s : state) :
  Js.truthy response = false ->
  let x := run (verifyOtp P cfg email isNewUser)
               {| typed := otp :: lines; picked := picks;
                  replies := Normal secrets :: Normal response :: rest |} s in
  let failure := Js.Error "Authentication completed, but no session data was returned." in
  trace x =
    [EAsk "Enter the OTP from your email:";
     ECall generateSessionSecrets;
     ESetSecrets secrets;
     ECall (completion_call email isNewUser s otp secrets);
     EConsole Log [VText (if isNewUser then "Registration successful!"
                          else "Login successful!")];
     EConsole Error ["OTP verification failed:"; failure];
     EConsole Error ["Error details:"; failure]] /\
  result x = Returned () /\
  final x = {| userSession := userSession s; sessionSecrets := secrets |}.
Proof.
intros Hfalsy. unfold verifyOtp, completion_call.
destruct isNewUser; cbn; rewrite Hfalsy; cbn; repeat split; reflexivity.
Qed.

Lemma successful_before_checked_witness :
  let x := run (verifyOtp Sample.node Sample.quiet "a@b.c" false)
               {| typed := ["123456"]; picked := [];
                  replies := [Normal (VObject []); Normal VUndefined] |} initial in
  In (EConsole Log ["Login successful!"]) (trace x) /\
  final x = {| userSession := VNull; sessionSecrets := VObject [] |}.
Proof.
intros x.
destruct (successful_before_checked Sample.node Sample.quiet "a@b.c" "123456" false [] []
            (VObject []) VUndefined [] initial eq_refl) as (Ht & _ & Hf).
fold x in Ht, Hf. split; [rewrite Ht; simpl; auto 10 | exact Hf].
Defined.


(** ** When a transfer is reported as successful *)

(** The lines that announce a successful transfer: those of [simpleLog]
    (lines 421 and 662) and those of [debugLog] (lines 425 and 666). *)
Definition announces (args : list value) : bool :=
  match args with
  | [VText line] =>
      String.eqb line "✅ USDC transfer successful!" ||
      String.eqb line "✅ SOL transfer successful!"
  | [VText line; _] =>
      String.eqb line "✅ Transaction successful! Signature:" ||
      String.eqb line "✅ Arbitrary transaction successful! Signature:"
  | _ => false
  end.

Definition reports (e : event) : bool :=
  match e with
  | EConsole Log args => announces args
  | _ => false
  end.

(** All three calls of a transfer resolved, and the last response carries a
    signature. *)
Definition sent (signature : value -> value) (d : list exchange) : bool :=
  match d with
  | [(_, Some (Normal _)); (_, Some (Normal _)); (_, Some (Normal response))] =>
      Js.truthy (signature response)
  | _ => false
  end.

(** A story of the exchanges and of the announcements between them. *)
Definition announced (e : event) : option (exchange + ()) :=
  if reports e then Some (inr ()) else None.

Definition exchanged (c : call) (r : option (completion value)) : option (exchange + ()) :=
  Some (inl (c, r)).

Fixpoint exchanges (h : list (exchange + ())) : list exchange :=
  match h with
  | [] => []
  | inl x :: rest => x :: exchanges rest
  | inr _ :: rest => exchanges rest
  end.

Definition proclaimed (h : list (exchange + ())) : bool :=
  existsb (fun x => match x with inr _ => true | inl _ => false end) h.

Lemma story_exchanges (tr : list event) :
  forall rs, exchanges (story announced exchanged tr rs) = story unseen heard tr rs.
Proof.
induction tr as [|e tr IH]; intros rs; [reflexivity|].
destruct e; cbn [story]; try (unfold announced; destruct (reports _)); cbn [add exchanges unseen];
  try apply IH.
destruct rs; cbn [add exchanged heard exchanges]; f_equal; apply IH.
Qed.

Lemma story_proclaimed (tr : list event) :
  forall rs, proclaimed (story announced exchanged tr rs) = existsb reports tr.
Proof.
induction tr as [|e tr IH]; intros rs; [reflexivity|].
destruct e; cbn [story existsb];
  try (unfold announced; destruct (reports _) eqn:Hr);
  cbn [add proclaimed existsb orb]; try apply IH; try reflexivity.
- discriminate Hr.
- destruct rs; cbn [add exchanged proclaimed existsb orb]; apply IH.
Qed.

Definition truthful (signature : value -> value) (h : list (exchange + ()))
    (o : outcome ()) (s : state) : Prop :=
  proclaimed h = sent signature (exchanges h).

Ltac truthful_leaf :=
  try discriminate;
  unfold truthful;
  repeat match goal with
  | |- context [announced ?e] =>
      first [ change (announced e) with (Some (inr ()) : option (exchange + ()))
            | change (announced e) with (None : option (exchange + ())) ]
  end;
  cbn [note add app exchanged proclaimed existsb exchanges sent orb];
  repeat match goal with
  | H : Js.truthy (_ ?r) = _ |- context [Js.truthy (_ ?r)] => rewrite H
  end;
  try reflexivity.

Lemma transferTokens_truthful (P : platform) (cfg : config) (s : state) :
  hp announced exchanged anything (truthful signatureOfSend) (transferTokens P cfg) [] s.
Proof.
unfold transferTokens. cbn [mbind prog_bind bind read hp].
destruct (Js.truthy (userSession s)) eqn:Hs; cbn [negb orb].
2:{ cbn. reflexivity. }
destruct (Js.truthy (sessionSecrets s)) eqn:Hk; cbn [negb orb].
2:{ cbn. reflexivity. }
repeat flow_step.
all: truthful_leaf.
Qed.

Lemma transferSOLArbitrary_truthful (P : platform) (cfg : config) (s : state) :
  hp announced exchanged anything (truthful signatureOfSignAndSend)
     (transferSOLArbitrary P cfg) [] s.
Proof.
unfold transferSOLArbitrary. cbn [mbind prog_bind bind read hp].
destruct (Js.truthy (userSession s)) eqn:Hs; cbn [negb orb].
2:{ cbn. reflexivity. }
destruct (Js.truthy (sessionSecrets s)) eqn:Hk; cbn [negb orb].
2:{ cbn. reflexivity. }
repeat flow_step.
all: truthful_leaf.
Qed.

(** X18. A transfer flow announces success exactly when all three of its
    calls resolved and the last response carries a signature: in every
    environment its trace holds one of the lines '✅ USDC transfer
    successful!', '✅ SOL transfer successful!' (or, with debugging on, the
    line '... successful! Signature:') if and only if the dialogue is three
    resolved calls and the signature extracted from the response of [send],
    respectively [signAndSend], is truthy. *)
Theorem success_means_sent (P : platform) (cfg : config) (w : world) (s : state) :
  let x := run (transferTokens P cfg) w s in
  let y := run (transferSOLArbitrary P cfg) w s in
  existsb reports (trace x) = sent signatureOfSend (dialogue x w) /\
  existsb reports (trace y) = sent signatureOfSignAndSend (dialogue y w).
Proof.
intros x y. unfold dialogue.
rewrite <- (story_exchanges (trace x) (replies w)), <- (story_proclaimed (trace x) (replies w)).
rewrite <- (story_exchanges (trace y) (replies w)), <- (story_proclaimed (trace y) (replies w)).
split.
- apply (hp_run announced exchanged anything (fun _ => eq_refl) _ (transferTokens P cfg) [] w s
           (transferTokens_truthful P cfg s) (anything_goes w)).
- apply (hp_run announced exchanged anything (fun _ => eq_refl) _
           (transferSOLArbitrary P cfg) [] w s
           (transferSOLArbitrary_truthful P cfg s) (anything_goes w)).
Qed.

(** A transfer that goes through is announced, with debugging off and on. *)
Example transfer_announced :
  let w := Sample.script [Sample.ADDR2; "1.5"]
             [Normal (VObject [("data", VObject [("transactionPayload", VText "tx")])]);
              Normal (VText "signed");
              Normal (VObject [("signature", VText "SIG")])] in
  existsb reports (trace (run (transferTokens Sample.node Sample.quiet) w Sample.logged_in))
  = true /\
  existsb reports (trace (run (transferTokens Sample.node Sample.verbose) w Sample.logged_in))
  = true.
Proof. split; vm_compute; reflexivity. Qed.
